(** * mesh_transformer/transformer_shard.py: a shallow embedding

    The model-parallel causal transformer of [transformer_shard.py] is an
    SPMD program: one instance per index of the named axis ["shard"],
    replicated along the named axis ["batch"].  A value that lives on a
    named axis is modelled as the list of its per-index values (position
    [i] of the list is what the instance with [axis_index = i] holds), and
    a collective ([psum], [pmean], [pmax], [all_gather]) as a function on
    such lists.  Floating-point arrays are idealised as real numbers; the
    dtype tags that the mixed-precision orchestration manipulates are kept
    explicitly. *)

From Stdlib Require Import Reals Lra Lia ZArith List String.
From stdpp Require Import base option list strings gmap.

(** ** Raised exceptions *)

Inductive exn : Type :=
| AssertionError
| ZeroDivisionError
| Exception (msg : string).

Inductive result (A : Type) : Type :=
| Ok (a : A)
| Raise (e : exn).
Arguments Ok {A} a.
Arguments Raise {A} e.

#[export] Instance result_ret : MRet result := fun _ a => Ok a.

#[export] Instance result_bind : MBind result := fun _ _ k r =>
  match r with
  | Ok a => k a
  | Raise e => Raise e
  end.

Definition py_assert (b : bool) : result unit :=
  if b then Ok tt else Raise AssertionError.

(** Python's [%] and [//] on ints: floored, and a zero divisor raises. *)
Definition py_mod (a b : Z) : result Z :=
  if (b =? 0)%Z then Raise ZeroDivisionError else Ok (a mod b)%Z.

Definition py_floordiv (a b : Z) : result Z :=
  if (b =? 0)%Z then Raise ZeroDivisionError else Ok (a / b)%Z.

(** ** Arrays that can be added and averaged *)

Class Summable (T : Type) : Type := {
  tadd : T -> T -> T;
  tscale : R -> T -> T
}.

#[export] Instance Summable_R : Summable R :=
  {| tadd := Rplus; tscale := Rmult |}.

#[export] Instance Summable_list {T : Type} `{Summable T} : Summable (list T) :=
  {| tadd := zip_with tadd; tscale := fun c => fmap (tscale c) |}.

Abbreviation vector := (list R) (only parsing).
Abbreviation matrix := (list (list R)) (only parsing).

Definition rsum (v : list R) : R := fold_right Rplus 0%R v.

(** ** Collectives over the axis ["shard"] *)

Module Collective.

(** The reduction of the per-index values; [None] on an axis of size 0. *)
Definition total {T : Type} `{Summable T} (xs : list T) : option T :=
  match xs with
  | [] => None
  | x :: rest => Some (fold_left tadd rest x)
  end.

(** [jax.lax.psum(x, axis)]: every index receives the sum. *)
Definition psum {T : Type} `{Summable T} (xs : list T) : list T :=
  match total xs with
  | None => []
  | Some s => fmap (fun _ => s) xs
  end.

(** [jax.lax.pmean(x, axis)]: the sum divided by the axis size. *)
Definition pmean {T : Type} `{Summable T} (xs : list T) : list T :=
  fmap (tscale (/ INR (length xs))%R) (psum xs).

(** [jax.lax.pmax(x, axis)] on one real per index. *)
Definition pmax (xs : list R) : list R :=
  match xs with
  | [] => []
  | x :: rest => fmap (fun _ => fold_left Rmax rest x) xs
  end.

(** [jax.lax.all_gather(x, axis)]: every index receives all the values. *)
Definition all_gather {T : Type} (xs : list T) : list (list T) :=
  fmap (fun _ => xs) xs.

(** [jax.lax.axis_index(axis)] paired with the value held there. *)
Definition with_axis_index {T U : Type} (f : nat -> T -> U) (xs : list T) : list U :=
  imap f xs.

End Collective.

(** ** [jax.custom_vjp]

    A function with a hand-written derivative rule: [primal] is what a
    plain call computes, [fwd] what the forward pass of a differentiation
    computes (output and residuals), [bwd] maps residuals and the upstream
    cotangent to the cotangent of the argument. *)

Record custom_vjp (A : Type) : Type := {
  primal : A -> A;
  fwd : A -> A * unit;
  bwd : unit -> A -> A
}.
Arguments primal {A} _ _.
Arguments fwd {A} _ _.
Arguments bwd {A} _ _ _.

(** What reverse-mode differentiation does with a [custom_vjp] function:
    run [fwd], keep the residuals, and answer cotangents with [bwd]. *)
Definition vjp {A : Type} (f : custom_vjp A) (x : A) : A * (A -> A) :=
  let '(y, res) := fwd f x in (y, bwd f res).

Section CustomCollectives.
Context {T : Type} `{Summable T}.

(** identity in forward pass, psum in backward *)
Definition f_psum_primal (x : list T) : list T := x.
Definition f_psum_fwd (x : list T) : list T * unit := (f_psum_primal x, tt).
Definition f_psum_bwd (_ : unit) (g : list T) : list T := Collective.psum g.
Definition f_psum : custom_vjp (list T) :=
  {| primal := f_psum_primal; fwd := f_psum_fwd; bwd := f_psum_bwd |}.

(** identity in forward pass, pmean in backward *)
Definition f_pmean_primal (x : list T) : list T := x.
Definition f_pmean_fwd (x : list T) : list T * unit := (primal f_psum x, tt).
Definition f_pmean_bwd (_ : unit) (g : list T) : list T := Collective.pmean g.
Definition f_pmean : custom_vjp (list T) :=
  {| primal := f_pmean_primal; fwd := f_pmean_fwd; bwd := f_pmean_bwd |}.

(** psum in forward pass, identity in backward *)
Definition g_psum_primal (x : list T) : list T := Collective.psum x.
Definition g_psum_fwd (x : list T) : list T * unit := (g_psum_primal x, tt).
Definition g_psum_bwd (_ : unit) (g : list T) : list T := g.
Definition g_psum : custom_vjp (list T) :=
  {| primal := g_psum_primal; fwd := g_psum_fwd; bwd := g_psum_bwd |}.

End CustomCollectives.

(** ** Normalization modules *)

Module Norm.
Local Open Scope R_scope.

(** The two Haiku parameters a norm module reads on one shard.  An array
    is held as the list of its elements: shape [(d,)] has [d] of them,
    shape [()] has one. *)
Record norm_params : Type := {
  scale : list R;
  offset : list R
}.

Inductive norm_module : Type :=
| ReplicatedLayerNorm (offset : bool)
| RMSNorm (offset : bool) (elementwise : bool).

Definition mean (row : vector) : R := rsum row / INR (length row).

Definition var (row : vector) : R :=
  let m := mean row in
  rsum (fmap (fun x => (x - m) * (x - m)) row) / INR (length row).

Definition rsqrt (x : R) : R := 1 / sqrt x.

(** [jnp.linalg.norm(x, axis=-1)] *)
Definition linalg_norm (row : vector) : R :=
  sqrt (rsum (fmap (fun x => x * x) row)).

(** Broadcasting a parameter of shape [(d,)] or [()] against a row of [d]
    features. *)
Definition broadcast_to (elementwise : bool) (p : list R) (d : nat) : vector :=
  if elementwise then p else repeat (hd 0 p) d.

(** [ReplicatedLayerNorm.__call__] on one row of one shard, once the
    parameters went through [f_psum]. *)
Definition layernorm_row (use_offset : bool) (scale offset : list R)
    (inputs : vector) : vector :=
  let mean := mean inputs in
  let variance := var inputs in
  let inv := fmap (fun s => s * rsqrt (variance + / 100000)) scale in
  if use_offset
  then zip_with Rplus (zip_with (fun i x => i * (x - mean)) inv inputs) offset
  else zip_with (fun i x => i * (x - mean)) inv inputs.

Definition ReplicatedLayerNorm_call (use_offset : bool)
    (params : list norm_params) (inputs : list matrix) : list matrix :=
  let scale := primal f_psum (fmap scale params) in
  let offset := primal f_psum (fmap offset params) in
  zip_with (fun '(s, o) x => fmap (layernorm_row use_offset s o) x)
           (zip scale offset) inputs.

(** [RMSNorm.__call__] on one row of one shard, given the parameters as
    they come out of the collective. *)
Definition rmsnorm_row (use_offset elementwise : bool) (scale offset : list R)
    (x : vector) : vector :=
  let d := length x in
  let normed := fmap (fun xi => xi / (linalg_norm x + / 100000)) x in
  let normed := zip_with Rmult normed (broadcast_to elementwise scale d) in
  if use_offset
  then zip_with Rplus normed (broadcast_to elementwise offset d)
  else normed.

Definition RMSNorm_call (use_offset elementwise : bool)
    (params : list norm_params) (x : list matrix) : list matrix :=
  let scale := Collective.pmean (fmap scale params) in
  let offset := Collective.pmean (fmap offset params) in
  zip_with (fun '(s, o) x => fmap (rmsnorm_row use_offset elementwise s o) x)
           (zip scale offset) x.

Definition call (m : norm_module) : list norm_params -> list matrix -> list matrix :=
  match m with
  | ReplicatedLayerNorm o => ReplicatedLayerNorm_call o
  | RMSNorm o e => RMSNorm_call o e
  end.

Definition getnorm (type : string) : result norm_module :=
  if String.eqb type "layernorm" then Ok (ReplicatedLayerNorm true)
  else if String.eqb type "layernorm-nobias" then Ok (ReplicatedLayerNorm false)
  else if String.eqb type "rmsnorm" then Ok (RMSNorm false true)
  else if String.eqb type "scalenorm" then Ok (RMSNorm false false)
  else if String.eqb type "rmsnorm-bias" then Ok (RMSNorm true true)
  else if String.eqb type "scalenorm-bias" then Ok (RMSNorm true false)
  else Raise (Exception "Not implemented").

(** The variant names the specification lists. *)
Definition spec_norm_kinds : list string :=
  ["layernorm"; "layernorm-no-bias"; "rmsnorm"; "scalenorm";
   "rmsnorm-bias"; "scalenorm-bias"]%string.

(** The variant names the factory recognises. *)
Definition norm_kinds : list string :=
  ["layernorm"; "layernorm-nobias"; "rmsnorm"; "scalenorm";
   "rmsnorm-bias"; "scalenorm-bias"]%string.

(** RMSNorm as the specification words it: scale and offset go through
    [f_pmean] (forward identity) before they are applied. *)
Definition RMSNorm_call_spec (use_offset elementwise : bool)
    (params : list norm_params) (x : list matrix) : list matrix :=
  let scale := primal f_pmean (fmap scale params) in
  let offset := primal f_pmean (fmap offset params) in
  zip_with (fun '(s, o) x => fmap (rmsnorm_row use_offset elementwise s o) x)
           (zip scale offset) x.

End Norm.

(** ** Linear layers ([hk.Linear]) *)

Module Linear.
Local Open Scope R_scope.

(** Weights of shape [(input_size, output_size)] as the list of their
    rows, and a bias of shape [(output_size,)]. *)
Record linear_params : Type := {
  w : matrix;
  b : vector
}.

(** [row @ w] for a row of [input_size] entries. *)
Definition vecmat (output_size : nat) (row : vector) (w : matrix) : vector :=
  fold_right (fun '(xi, wi) acc => zip_with Rplus (fmap (Rmult xi) wi) acc)
             (repeat 0 output_size) (zip row w).

Definition call (output_size : nat) (with_bias : bool) (p : linear_params)
    (x : matrix) : matrix :=
  fmap (fun row =>
              let out := vecmat output_size row (w p) in
              if with_bias then zip_with Rplus out (b p) else out) x.

End Linear.

(** ** Relative position bias *)

Module RelativePositionEmbs.
Local Open Scope Z_scope.

(** Two's complement wrap-around of [np.int32] arithmetic. *)
Definition wrap32 (z : Z) : Z := (z + 2 ^ 31) mod 2 ^ 32 - 2 ^ 31.

(** [np.finfo(np.float32).eps] *)
Definition float32_eps : R := (/ 8388608)%R.

(** [.astype(np.int32)] of a float: truncation toward zero. *)
Definition astype_int32 (r : R) : Z :=
  if Rle_dec 0 r then Int_part r else - Int_part (- r).

Definition _relative_position_bucket (relative_position : Z)
    (num_buckets max_distance : Z) : Z :=
  let ret := 0 in
  let n := wrap32 (- relative_position) in
  let n := Z.max n 0 in
  let max_exact := num_buckets / 2 in
  let is_small := n <? max_exact in
  let val_if_large :=
    max_exact +
    astype_int32 (ln (IZR n / IZR max_exact + float32_eps) /
                  ln (IZR max_distance / IZR max_exact) *
                  IZR (num_buckets - max_exact))%R in
  let val_if_large := Z.min val_if_large (num_buckets - 1) in
  ret + (if is_small then n else val_if_large).

(** The bucketing as [__call__] uses it: default keyword arguments. *)
Definition bucket (relative_position : Z) : Z :=
  _relative_position_bucket relative_position 32 128.

(** [np.arange(n, dtype=jnp.int32)] *)
Definition arange (n : nat) : list Z := fmap Z.of_nat (seq 0 n).

(** [__call__] on one shard: [rel_embedding] has shape
    [(heads, num_buckets)]; the result has shape [(heads, qlen, klen)]. *)
Definition call (rel_embedding : matrix) (qlen klen : nat) (num_buckets : nat)
    : list matrix :=
  let context_position := arange qlen in
  let memory_position := arange klen in
  let rp_bucket :=
    fmap (fun c => fmap (fun m => bucket (wrap32 (m - c))) memory_position)
             context_position in
  let bcast_iota := arange num_buckets in
  fmap (fun bias_h =>
    fmap (fun row =>
      fmap (fun rp =>
        rsum (zip_with (fun wgt i => wgt * (if rp =? i then 1 else 0))%R
                       bias_h bcast_iota)) row) rp_bucket) rel_embedding.

End RelativePositionEmbs.

(** ** Parameter trees with dtypes (mixed precision) *)

Inductive dtype : Type := float32 | bfloat16 | int32.

(** What the orchestration needs of the tensor engine: a number type with
    addition, division by an axis size, and rounding to a dtype. *)
Class Engine (num : Type) : Type := {
  nzero : num;
  nadd : num -> num -> num;
  ndiv : num -> nat -> num;
  nround : dtype -> num -> num
}.

Section Trees.
Context {num : Type} `{Engine num}.

Record array : Type := {
  dt : dtype;
  data : list num
}.

(** [x.astype(d)] *)
Definition astype (d : dtype) (x : array) : array :=
  {| dt := d; data := fmap (nround d) (data x) |}.

(** [jnp.zeros_like(x)] *)
Definition zeros_like (x : array) : array :=
  {| dt := dt x; data := fmap (fun _ => nzero) (data x) |}.

(** Result dtype of a binary operation on two arrays. *)
Definition promote (a b : dtype) : dtype :=
  match a, b with
  | float32, _ | _, float32 => float32
  | bfloat16, _ | _, bfloat16 => bfloat16
  | int32, int32 => int32
  end.

(** [a + b] on arrays of one shape. *)
Definition array_add (a b : array) : array :=
  let d := promote (dt a) (dt b) in
  {| dt := d; data := zip_with (fun x y => nround d (nadd x y)) (data a) (data b) |}.

(** A Haiku parameter tree: module name to parameter name to array. *)
Definition tree_map (f : array -> array)
    (t : gmap string (gmap string array)) : gmap string (gmap string array) :=
  (fun m : gmap string array => f <$> m) <$> t.

(** [jax.tree_multimap] on two trees with the same leaves, which is how
    the code calls it; the library raises on trees that differ in
    structure, where this keeps the common leaves. *)
Definition tree_multimap (f : array -> array -> array)
    (a b : gmap string (gmap string array)) : gmap string (gmap string array) :=
  map_zip_with (fun m1 m2 : gmap string array => map_zip_with f m1 m2) a b.

Definition to_f32 (t : gmap string (gmap string array)) :=
  tree_map (fun x => match dt x with bfloat16 => astype float32 x | _ => x end) t.

Definition to_bf16 (t : gmap string (gmap string array)) :=
  tree_map (fun x => match dt x with float32 => astype bfloat16 x | _ => x end) t.

(** [jax.lax.pmean(tree, "batch")]: leaf-wise mean over the data-parallel
    replicas; every replica receives the same tree. *)
Definition tree_pmean (ts : list (gmap string (gmap string array)))
    : option (gmap string (gmap string array)) :=
  match ts with
  | [] => None
  | t :: rest =>
      let s := fold_left (tree_multimap array_add) rest t in
      Some (tree_map (fun a =>
              {| dt := dt a;
                 data := fmap (fun v => nround (dt a) (ndiv v (length ts))) (data a) |}) s)
  end.

(** [optax.apply_updates]: [p + u], cast back to the dtype of [p], for
    updates with the leaves of the parameters. *)
Definition apply_updates (params updates : gmap string (gmap string array)) :=
  tree_multimap (fun p u => astype (dt p) (array_add p u)) params updates.

(** An [optax.GradientTransformation]; its state is a list of trees. *)
Record GradientTransformation : Type := {
  init : gmap string (gmap string array) -> list (gmap string (gmap string array));
  update : gmap string (gmap string array) ->
           list (gmap string (gmap string array)) ->
           gmap string (gmap string array) ->
           gmap string (gmap string array) * list (gmap string (gmap string array))
}.

(** The training state dictionary. *)
Record TrainingState : Type := {
  params : gmap string (gmap string array);
  step : Z;
  opt_state : list (gmap string (gmap string array))
}.

End Trees.
Arguments array num : clear implicits.
Arguments GradientTransformation num : clear implicits.
Arguments TrainingState num : clear implicits.

(** ** Configuration *)

Record config (O : Type) : Type := {
  n_vocab : Z;
  d_model : Z;
  cores_per_replica : Z;
  n_heads : Z;
  layers : Z;
  norm : string;
  seq_len : Z;
  optimizer : O
}.
Arguments n_vocab {O} _.
Arguments d_model {O} _.
Arguments cores_per_replica {O} _.
Arguments n_heads {O} _.
Arguments layers {O} _.
Arguments norm {O} _.
Arguments seq_len {O} _.
Arguments optimizer {O} _.

(** [config["norm"]], under a name that the modules' own [norm] attribute
    does not shadow. *)
Definition config_norm {O : Type} (c : config O) : string := norm c.

(** [range(lo, hi)] / [jnp.arange(lo, hi)] *)
Definition py_range (lo hi : Z) : list Z := seqZ lo (hi - lo).

(** ** Sharded embedding *)

Module EmbeddingShard.
Local Open Scope Z_scope.

Record t : Type := {
  in_dim : Z;
  out_dim : Z;
  in_dim_per_shard : Z
}.

Definition __init__ {O : Type} (config : config O) : result t :=
  let in_dim := n_vocab config in
  let out_dim := d_model config in
  let shards := cores_per_replica config in
  r ← py_mod in_dim shards;
  _ ← py_assert (r =? 0);
  q ← py_floordiv in_dim shards;
  Ok {| in_dim := in_dim; out_dim := out_dim; in_dim_per_shard := q |}.

(** The local one-hot encoding [(shard_index == x).astype(float32)]. *)
Definition local_onehot (m : t) (axis_index : nat) (x : list Z) : matrix :=
  let shard_start_index := Z.of_nat axis_index * in_dim_per_shard m in
  let shard_index :=
    fmap (fun j => j + shard_start_index) (py_range 0 (in_dim_per_shard m)) in
  fmap (fun tok => fmap (fun si => if si =? tok then 1%R else 0%R) shard_index) x.

(** The per-shard projection, before the collective. *)
Definition proj_out (m : t) (params : list Linear.linear_params) (x : list Z)
    : list matrix :=
  Collective.with_axis_index
    (fun axis_index p =>
       Linear.call (Z.to_nat (out_dim m)) true p (local_onehot m axis_index x))
    params.

Definition __call__ (m : t) (params : list Linear.linear_params) (x : list Z)
    : list matrix :=
  primal g_psum (proj_out m params x).

End EmbeddingShard.

(** ** Fused attention and feed-forward block *)

Module TransformerLayerShard.
Local Open Scope R_scope.

Record t : Type := {
  dim : Z;
  dim_per_head : Z;
  heads_per_shard : Z;
  dim_per_shard : Z;
  norm : Norm.norm_module
}.

Definition __init__ {O : Type} (config : config O) (init_scale : R) : result t :=
  let heads := n_heads config in
  let dim := d_model config in
  let shards := cores_per_replica config in
  norm ← Norm.getnorm (config_norm config);
  r ← py_mod dim heads;
  _ ← py_assert (r =? 0)%Z;
  r ← py_mod heads shards;
  _ ← py_assert (r =? 0)%Z;
  dim_per_head ← py_floordiv dim heads;
  heads_per_shard ← py_floordiv heads shards;
  dim_per_shard ← py_floordiv dim shards;
  Ok {| dim := dim; dim_per_head := dim_per_head;
        heads_per_shard := heads_per_shard; dim_per_shard := dim_per_shard;
        norm := norm |}.

Record layer_params : Type := {
  norm_p : Norm.norm_params;
  q : Linear.linear_params;
  v : Linear.linear_params;
  k : Linear.linear_params;
  o : Linear.linear_params;
  dense_proj : Linear.linear_params;
  dense_proj_o : Linear.linear_params
}.

(** [.reshape((-1, heads, size))] of one row. *)
Definition split_heads (heads size : nat) (row : vector) : list vector :=
  fmap (fun h => firstn size (skipn (h * size) row)) (seq 0 heads).

Definition dot (a b : vector) : R := rsum (zip_with Rmult a b).

Definition row_max (row : vector) : R := fold_left Rmax (tl row) (hd 0 row).

(** [jax.nn.softmax] along the last axis. *)
Definition softmax (row : vector) : vector :=
  let unnormalized := fmap (fun x => exp (x - row_max row)) row in
  fmap (fun u => u / rsum unnormalized) unnormalized.

(** [jax.nn.gelu] (tanh approximation). *)
Definition gelu (x : R) : R :=
  let cdf := (1 / 2) * (1 + tanh (sqrt (2 / PI) * (x + (44715 / 1000000) * (x * x * x)))) in
  x * cdf.

(** Everything of [__call__] that is local to one shard: from the
    normalized input to [attn_out + dense_out]. *)
Definition local_block (m : t) (p : layer_params) (x : matrix)
    (attn_bias : option (list matrix)) : matrix :=
  let hps := Z.to_nat (heads_per_shard m) in
  let dph := Z.to_nat (dim_per_head m) in
  let dps := Z.to_nat (dim_per_shard m) in
  let qh := fmap (split_heads hps dph) (Linear.call dps false (q p) x) in
  let vh := fmap (split_heads hps dph) (Linear.call dps false (v p) x) in
  let kh := fmap (split_heads hps dph) (Linear.call dps false (k p) x) in
  let sqrt_key_size := sqrt (IZR (dim_per_head m)) in
  let attention_logits :=
    fmap (fun h =>
      imap (fun t qt =>
        imap (fun T kT =>
          dot (nth h qt []) (nth h kT []) / sqrt_key_size
          - 10000000000 * (1 - (if (T <=? t)%nat then 1 else 0)))
          kh) qh) (seq 0 hps) in
  let attention_logits :=
    match attn_bias with
    | Some bias =>
        zip_with (zip_with (zip_with Rplus)) attention_logits bias
    | None => attention_logits
    end in
  let attention_weights := fmap (M := list) (fmap (M := list) softmax) attention_logits in
  let attention_vec :=
    imap (fun t _ =>
      concat (fmap (fun h =>
        fmap (fun d =>
          rsum (imap (fun T vT =>
                  nth T (nth t (nth h attention_weights []) []) 0 * nth d (nth h vT []) 0)
                vh))
          (seq 0 dph)) (seq 0 hps))) x in
  let attn_out := Linear.call (Z.to_nat (dim m)) false (o p) attention_vec in
  let dense := Linear.call (dps * 4) true (dense_proj p) x in
  let dense := fmap (M := list) (fmap (M := list) gelu) dense in
  let dense_out := Linear.call (Z.to_nat (dim m)) true (dense_proj_o p) dense in
  zip_with (zip_with Rplus) attn_out dense_out.

Definition __call__ (m : t) (params : list layer_params) (x : list matrix)
    (attn_bias : list (option (list matrix))) : list matrix :=
  let x := primal f_psum x in
  let x := Norm.call (norm m) (fmap norm_p params) x in
  primal g_psum
    (zip_with (fun '(p, b) xs => local_block m p xs b) (zip params attn_bias) x).

End TransformerLayerShard.

(** ** Sharded output projection and loss *)

Module ProjectionShard.
Local Open Scope R_scope.

Record t : Type := {
  dim : Z;
  dim_per_shard : Z;
  norm : Norm.norm_module
}.

Definition __init__ {O : Type} (config : config O) : result t :=
  let out_dim := n_vocab config in
  let shards := cores_per_replica config in
  norm ← Norm.getnorm (config_norm config);
  r ← py_mod out_dim shards;
  _ ← py_assert (r =? 0)%Z;
  dim_per_shard ← py_floordiv out_dim shards;
  Ok {| dim := out_dim; dim_per_shard := dim_per_shard; norm := norm |}.

Record proj_params : Type := {
  norm_p : Norm.norm_params;
  proj : Linear.linear_params
}.

(** The shard-local logits [self.proj(self.norm(x))], one matrix of shape
    [(seq, dim_per_shard)] per shard. *)
Definition local_logits (m : t) (params : list proj_params) (x : list matrix)
    : list matrix :=
  let x := Norm.call (norm m) (fmap norm_p params) x in
  zip_with (fun p xs => Linear.call (Z.to_nat (dim_per_shard m)) true (proj p) xs)
           params x.

(** [hk.Flatten()(jnp.transpose(all_proj, (1, 0, 2)))]: for every token,
    the shards' slices one after the other. *)
Definition transpose_flatten (all_proj : list matrix) : matrix :=
  match all_proj with
  | [] => []
  | first :: _ =>
      imap (fun tok _ => concat (fmap (fun m => nth tok m []) all_proj)) first
  end.

Definition __call__ (m : t) (params : list proj_params) (x : list matrix)
    : list matrix :=
  let proj := local_logits m params x in
  let all_proj := Collective.all_gather proj in
  fmap transpose_flatten all_proj.

(** [logits.max(-1, keepdims=True)] *)
Definition row_max (row : vector) : R := fold_left Rmax (tl row) (hd 0 row).

(** [jax.lax.pmax] on one vector per shard, element by element. *)
Definition pmax (xs : list vector) : list vector :=
  match xs with
  | [] => []
  | x :: rest => fmap (fun _ => fold_left (zip_with Rmax) rest x) xs
  end.

(** [jax.nn.one_hot(i, n)]: all zeros when [i] is outside [0, n). *)
Definition one_hot (i : Z) (n : Z) : vector :=
  fmap (fun j => if (i =? j)%Z then 1 else 0) (py_range 0 n).

(** [z_loss] is accepted and not used: the term is commented out. *)
Definition loss (m : t) (params : list proj_params) (x : list matrix)
    (targets : list Z) (z_loss : bool) : list vector :=
  let x := primal f_psum x in
  let logits := local_logits m params x in
  let global_max := pmax (fmap (M := list) (fmap (M := list) row_max) logits) in
  let logits :=
    zip_with (fun lg gm => zip_with (fun row mx => fmap (fun l => l - mx) row) lg gm)
             logits global_max in
  let predicted_logits :=
    Collective.with_axis_index
      (fun axis_index lg =>
         let shard_start_index := (Z.of_nat axis_index * dim_per_shard m)%Z in
         zip_with (fun tgt row =>
                     let gt_onehot := one_hot (tgt - shard_start_index) (dim_per_shard m) in
                     rsum (zip_with Rmult gt_onehot row))
                  targets lg)
      logits in
  let predicted_logits := primal g_psum predicted_logits in
  let exp_logits := fmap (M := list) (fmap (M := list) (fmap (M := list) exp)) logits in
  let sum_exp_logits := fmap (M := list) (fmap (M := list) rsum) exp_logits in
  let sum_exp_logits := primal g_psum sum_exp_logits in
  zip_with (zip_with (fun s p => ln s - p)) sum_exp_logits predicted_logits.

(** The unsharded reference: cross-entropy of the full logits. *)
Definition cross_entropy (all_logits : vector) (target : nat) : R :=
  ln (rsum (fmap exp all_logits)) - nth target all_logits 0.

End ProjectionShard.

(** ** The assembled model *)

Module CausalTransformerShard.
Local Open Scope R_scope.

Record t : Type := {
  transformer_layers : list TransformerLayerShard.t;
  heads : Z;
  heads_per_shard : Z;
  embed : EmbeddingShard.t;
  proj : ProjectionShard.t
}.

Definition __init__ {O : Type} (config : config O) : result t :=
  let heads := n_heads config in
  let shards := cores_per_replica config in
  let layer_count := layers config in
  heads_per_shard ← py_floordiv heads shards;
  embed ← EmbeddingShard.__init__ config;
  init_scale ← (if (layer_count =? 0)%Z then Raise ZeroDivisionError
                 else Ok (2 / IZR layer_count));
  transformer_layers ←
    mapM (fun _ => TransformerLayerShard.__init__ config init_scale)
         (py_range 0 layer_count);
  proj ← ProjectionShard.__init__ config;
  Ok {| transformer_layers := transformer_layers; heads := heads;
        heads_per_shard := heads_per_shard; embed := embed; proj := proj |}.

(** The parameters of the whole model; every leaf carries the ["shard"]
    axis, as the state of the mapped functions does. *)
Record model_params : Type := {
  embed_p : list Linear.linear_params;
  layers_p : list (list TransformerLayerShard.layer_params);
  proj_p : list ProjectionShard.proj_params;
  rel_embedding : list matrix
}.

(** The [for l in self.transformer_layers] loop of [eval]. *)
Definition run_layers
    (ls : list (TransformerLayerShard.t * list TransformerLayerShard.layer_params))
    (attn_bias : list (option (list matrix))) (x : list matrix) : list matrix :=
  fold_left (fun x '(l, p) => tadd x (TransformerLayerShard.__call__ l p x attn_bias))
            ls x.

Definition eval (m : t) (ps : model_params) (context target : list Z)
    (z_loss : bool) : list vector :=
  let input_len := length context in
  let attn_bias :=
    fmap (fun e => Some (RelativePositionEmbs.call e input_len input_len 32))
             (rel_embedding ps) in
  let x := EmbeddingShard.__call__ (embed m) (embed_p ps) context in
  let x := run_layers (zip (transformer_layers m) (layers_p ps)) attn_bias x in
  ProjectionShard.loss (proj m) (proj_p ps) x target z_loss.

(** [self.eval(ctx, tgt, z_loss).mean()], on every shard. *)
Definition loss (m : t) (ps : model_params) (ctx tgt : list Z) (z_loss : bool)
    : list R :=
  fmap Norm.mean (eval m ps ctx tgt z_loss).

(** [eval_loss] and [train_loss] of the orchestration: build the model
    from the configuration, then run it. *)
Definition eval_loss {O : Type} (config : config O) (ps : model_params)
    (x y : list Z) : result (list R) :=
  transformer ← __init__ config;
  Ok (loss transformer ps x y false).

Definition train_loss {O : Type} (config : config O) (ps : model_params)
    (x y : list Z) : result (list R) :=
  transformer ← __init__ config;
  Ok (loss transformer ps x y true).

End CausalTransformerShard.

(** ** Training orchestration *)

(** [jax.lax.scan]: thread a carry through the items, collect the outputs. *)
Fixpoint scan {C X Y : Type} (f : C -> X -> C * Y) (init : C) (xs : list X)
    : C * list Y :=
  match xs with
  | [] => (init, [])
  | x :: rest =>
      let '(c, y) := f init x in
      let '(c', ys) := scan f c rest in
      (c', y :: ys)
  end.

Module CausalTransformer.
Section Orchestration.
Context {num : Type} `{Engine num}.

(** The forward loss of the model built from the configuration, as a
    function of the parameter tree ([hk.transform(...).apply]); the flag
    is [z_loss]. *)
Variable loss_apply :
  bool -> gmap string (gmap string (array num)) -> list Z -> list Z -> array num.

(** Reverse-mode differentiation with respect to the first argument
    ([jax.grad]), supplied by the engine. *)
Variable jax_grad :
  (gmap string (gmap string (array num)) -> list Z -> list Z -> array num) ->
  gmap string (gmap string (array num)) -> list Z -> list Z ->
  gmap string (gmap string (array num)).

Definition value_and_grad
    (f : gmap string (gmap string (array num)) -> list Z -> list Z -> array num)
    (p : gmap string (gmap string (array num))) (ctx tgt : list Z) :=
  (f p ctx tgt, jax_grad f p ctx tgt).

Variable optimizer : GradientTransformation num.

(** The inner [eval], on one data-parallel replica. *)
Definition eval (state : TrainingState num) (ctx tgt : list Z) : array num :=
  let eval_loss_fn := loss_apply false in
  eval_loss_fn (to_bf16 (params state)) ctx tgt.

Definition microbatch (state : TrainingState num)
    (old_grad : gmap string (gmap string (array num))) (batch : list Z * list Z) :=
  let train_loss_fn := loss_apply true in
  let '(ctx, tgt) := batch in
  let '(value, grad) := value_and_grad train_loss_fn (to_bf16 (params state)) ctx tgt in
  let new_grad := tree_multimap array_add old_grad grad in
  (new_grad, value).

(** The part of the inner [train] that precedes the collective: the scan
    over the micro-batches of one replica. *)
Definition accumulate (state : TrainingState num)
    (batches : list (list Z * list Z)) :=
  scan (microbatch state)
       (tree_map (fun x => astype bfloat16 (zeros_like x)) (params state))
       batches.

Definition to_f32_leaf (x : array num) : array num :=
  match dt x with bfloat16 => astype float32 x | _ => x end.

(** The inner [train], mapped over the ["batch"] axis: one list of
    micro-batches per replica; [None] on an axis of size 0. *)
Definition train (state : TrainingState num)
    (batches : list (list (list Z * list Z)))
    : option (list (list (array num)) * TrainingState num) :=
  let per_replica := accumulate state <$> batches in
  grad ← tree_pmean (fst <$> per_replica);
  let '(updates, new_opt_state) :=
    update optimizer grad (opt_state state) (params state) in
  Some (fmap (M := list) (fmap (M := list) to_f32_leaf) (snd <$> per_replica),
        {| params := apply_updates (params state) (to_f32 updates);
           step := step state + 1;
           opt_state := new_opt_state |}).

(** The inner [train] as the specification words it: the averaged
    gradient is cast to full precision before the optimizer sees it. *)
Definition train_spec (state : TrainingState num)
    (batches : list (list (list Z * list Z)))
    : option (list (list (array num)) * TrainingState num) :=
  let per_replica := accumulate state <$> batches in
  grad ← tree_pmean (fst <$> per_replica);
  let grad := to_f32 grad in
  let '(updates, new_opt_state) :=
    update optimizer grad (opt_state state) (params state) in
  Some (fmap (M := list) (fmap (M := list) to_f32_leaf) (snd <$> per_replica),
        {| params := apply_updates (params state) updates;
           step := step state + 1;
           opt_state := new_opt_state |}).

(** [np.array(loss).mean()] *)
Definition array_mean (xs : list num) : num :=
  ndiv (fold_left nadd xs nzero) (length xs).

(** The object: [self.state] is the only attribute the methods touch. *)
Record t : Type := { state : TrainingState num }.

Record sample : Type := {
  obs : list (list (list Z));
  target : list (list (list Z))
}.

(** [jnp.transpose(a, (1, 0, 2))] *)
Definition transpose {A : Type} (a : list (list A)) : list (list A) :=
  match a with
  | [] => []
  | first :: _ => imap (fun j _ => omap (fun row => row !! j) a) first
  end.

(** A method body runs against the attributes of [self]: it returns its
    value together with the attributes it leaves behind, or fails. *)
Definition method (A : Type) : Type := t -> option (A * t).

#[export] Instance method_ret : MRet method := fun _ a self => Some (a, self).

#[export] Instance method_bind : MBind method := fun _ _ k m self =>
  match m self with
  | Some (a, self') => k a self'
  | None => None
  end.

(** Reading [self.state], and the assignment [self.state = s]. *)
Definition get_state : method (TrainingState num) :=
  fun self => Some (state self, self).

Definition set_state (s : TrainingState num) : method unit :=
  fun _ => Some (tt, {| state := s |}).

(** The result of a mapped function, which touches no attribute. *)
Definition xmap_result {A : Type} (r : option A) : method A :=
  fun self => match r with Some a => Some (a, self) | None => None end.

(** The method [train]: runs the mapped step on [self.state] and assigns
    the state it returns. *)
Definition train_method (s : sample) : method num :=
  let obs := transpose (obs s) in
  let target := transpose (target s) in
  st ← get_state;
  '(loss, new_state) ← xmap_result (train st (zip_with zip obs target));
  _ ← set_state new_state;
  mret (array_mean (concat (concat (fmap (M := list) (fmap (M := list) data) loss)))).

(** The method [eval]: one example per replica; [self.state] is read and
    there is no assignment. *)
Definition eval_method (obs target : list (list Z)) : method num :=
  st ← get_state;
  let loss := zip_with (eval st) obs target in
  mret (array_mean (concat (data <$> loss))).

End Orchestration.
End CausalTransformer.

(** ** Worked examples and specification predicates *)

(** An integer-valued engine for the worked examples: every value in them
    is a small integer, which both float formats represent exactly, so
    rounding leaves it unchanged. *)
#[export] Instance Engine_Z : Engine Z :=
  {| nzero := 0%Z;
     nadd := Z.add;
     ndiv := fun v n => (v / Z.of_nat n)%Z;
     nround := fun _ v => v |}.

(** One full-precision weight vector. *)
Definition toy_params : gmap string (gmap string (array Z)) :=
  {[ "linear"%string := {[ "w"%string := {| dt := float32; data := [1%Z; 2%Z] |} ]} ]}.

Definition toy_state : TrainingState Z :=
  {| params := toy_params; step := 0; opt_state := [] |}.

(** The loss is the sum of all parameter entries ... *)
Definition toy_loss (z_loss : bool) (p : gmap string (gmap string (array Z)))
    (ctx tgt : list Z) : array Z :=
  {| dt := bfloat16;
     data := [map_fold (fun _ (m : gmap string (array Z)) acc =>
                map_fold (fun _ a acc => fold_left Z.add (data a) acc) acc m) 0%Z p] |}.

(** ... so its gradient is one everywhere, in the dtype of the tree it is
    taken at. *)
Definition toy_grad
    (f : gmap string (gmap string (array Z)) -> list Z -> list Z -> array Z)
    (p : gmap string (gmap string (array Z))) (ctx tgt : list Z)
    : gmap string (gmap string (array Z)) :=
  tree_map (fun a => {| dt := dt a; data := (fun _ => 1%Z) <$> data a |}) p.

(** A gradient transformation that passes the gradient on as the update and
    keeps it as its state (a momentum trace with decay 0). *)
Definition remember_gradient : GradientTransformation Z :=
  {| init := fun _ => []; update := fun g s p => (g, [g]) |}.

(** One replica, one micro-batch. *)
Definition toy_batches : list (list (list Z * list Z)) :=
  [[([1%Z; 2%Z; 3%Z], [2%Z; 3%Z; 4%Z])]].

(** The same batch as the method [train] receives it, and an object that
    holds the example state. *)
Definition toy_sample : CausalTransformer.sample :=
  {| CausalTransformer.obs := [[[1%Z; 2%Z; 3%Z]]];
     CausalTransformer.target := [[[2%Z; 3%Z; 4%Z]]] |}.

Definition toy_object : @CausalTransformer.t Z :=
  {| CausalTransformer.state := toy_state |}.

(** The dtype of the leaf ["linear"/"w"] of a tree. *)
Definition leaf_dtype (t : gmap string (gmap string (array Z))) : option dtype :=
  m ← t !! "linear"%string; a ← m !! "w"%string; Some (dt a).

(** A vocabulary of 8 split across 2 shards, model dimension 1. *)
Definition vocab8_projection : ProjectionShard.t :=
  {| ProjectionShard.dim := 8;
     ProjectionShard.dim_per_shard := 4;
     ProjectionShard.norm := Norm.RMSNorm false true |}.

Definition vocab8_params : list ProjectionShard.proj_params :=
  [ {| ProjectionShard.norm_p := {| Norm.scale := [1%R]; Norm.offset := [0%R] |};
       ProjectionShard.proj := {| Linear.w := [[1; 2; 3; 4]%R];
                                  Linear.b := [0; 0; 0; 0]%R |} |};
    {| ProjectionShard.norm_p := {| Norm.scale := [1%R]; Norm.offset := [0%R] |};
       ProjectionShard.proj := {| Linear.w := [[5; 6; 7; 8]%R];
                                  Linear.b := [0; 0; 0; 0]%R |} |} ].

(** One token of activations, replicated on both shards. *)
Definition unit_activations : list (list (list R)) := [ [[1%R]]; [[1%R]] ].

(** A vocabulary of 2 split across 2 shards, output dimension 1, with
    biases that are not zero. *)
Definition small_embedding : EmbeddingShard.t :=
  {| EmbeddingShard.in_dim := 2;
     EmbeddingShard.out_dim := 1;
     EmbeddingShard.in_dim_per_shard := 1 |}.

Definition small_embedding_params : list Linear.linear_params :=
  [ {| Linear.w := [[5%R]]; Linear.b := [1%R] |};
    {| Linear.w := [[7%R]]; Linear.b := [10%R] |} ].

(** Two shards whose RMSNorm scales differ. *)
Definition uneven_norm_params : list Norm.norm_params :=
  [ {| Norm.scale := [1%R]; Norm.offset := [0%R] |};
    {| Norm.scale := [3%R]; Norm.offset := [0%R] |} ].

(** The end-to-end configuration of the specification, with the model
    dimension changed from 4 to 5 so that the heads do not divide it. *)
Definition bad_config : config unit :=
  {| n_vocab := 8; d_model := 5; cores_per_replica := 2; n_heads := 2;
     layers := 1; norm := "layernorm"; seq_len := 3; optimizer := tt |}.

(** The same configuration with a negative layer count. *)
Definition layerless_config : config unit :=
  {| n_vocab := 8; d_model := 5; cores_per_replica := 2; n_heads := 2;
     layers := -1; norm := "layernorm"; seq_len := 3; optimizer := tt |}.

(** Shard-local logits of shape [(n, d)] on every shard. *)
Definition well_shaped (n d : nat) (logits : list (list (list R))) : Prop :=
  Forall (fun lg => length lg = n /\ Forall (fun row => length row = d) lg) logits.

(** A projection whose weights produce [d] logits. *)
Definition proj_shaped (d : nat) (p : ProjectionShard.proj_params) : Prop :=
  length (Linear.b (ProjectionShard.proj p)) = d /\
  Forall (fun r => length r = d) (Linear.w (ProjectionShard.proj p)).

(** A linear layer with weights of shape [(ips, od)] and a bias of shape
    [(od,)]. *)
Definition linear_shaped (ips od : nat) (p : Linear.linear_params) : Prop :=
  length (Linear.b p) = od /\ length (Linear.w p) = ips /\
  Forall (fun r => length r = od) (Linear.w p).

(** The four divisibility invariants of a configuration, with Python's [%]:
    a zero divisor does not satisfy them. *)
Definition invariants {O : Type} (c : config O) : Prop :=
  py_mod (d_model c) (n_heads c) = Ok 0%Z /\
  py_mod (n_heads c) (cores_per_replica c) = Ok 0%Z /\
  py_mod (n_vocab c) (cores_per_replica c) = Ok 0%Z /\
  py_mod (d_model c) (cores_per_replica c) = Ok 0%Z.

(** The float expression of the log regime of the bucketing, at the default
    keyword arguments. *)
Definition log_term (n : Z) : R :=
  (ln (IZR n / IZR 16 + RelativePositionEmbs.float32_eps) / ln (IZR 128 / IZR 16)
   * IZR (32 - 16))%R.

Section TrainSpec.
Context {num : Type} `{Engine num}.

(** Every leaf of the tree satisfies [P]. *)
Definition tree_Forall (P : array num -> Prop)
  (t : gmap string (gmap string (array num))) : Prop :=
forall k m n a, t !! k = Some m -> m !! n = Some a -> P a.

(** The engine differentiates in the precision of the tree it is given. *)
Definition grad_keeps_bf16
  (jax_grad :
     (gmap string (gmap string (array num)) -> list Z -> list Z -> array num) ->
     gmap string (gmap string (array num)) -> list Z -> list Z ->
     gmap string (gmap string (array num))) : Prop :=
forall f p ctx tgt,
  tree_Forall (fun a => dt a = bfloat16) p ->
  tree_Forall (fun a => dt a = bfloat16) (jax_grad f p ctx tgt).

(** The ordered left fold over the micro-batches of one replica:
  [grad_i = grad_(i-1) + gradient(loss)(params, microBatch_i)], from a
  zero accumulator in reduced precision, at the reduced-precision
  parameters. *)
Definition accumulated
  (loss_apply :
     bool -> gmap string (gmap string (array num)) -> list Z -> list Z -> array num)
  (jax_grad :
     (gmap string (gmap string (array num)) -> list Z -> list Z -> array num) ->
     gmap string (gmap string (array num)) -> list Z -> list Z ->
     gmap string (gmap string (array num)))
  (state : TrainingState num) (mbs : list (list Z * list Z))
  : gmap string (gmap string (array num)) :=
fold_left
  (fun g b => tree_multimap array_add g
                (jax_grad (loss_apply true) (to_bf16 (params state)) b.1 b.2))
  mbs
  (tree_map (fun x => astype bfloat16 (zeros_like x)) (params state)).

(** The mean over [n] replicas written out: the sum of the replicas'
  trees, every entry divided by [n]. *)
Definition mean_of (n : nat) (first : gmap string (gmap string (array num)))
  (rest : list (gmap string (gmap string (array num))))
  : gmap string (gmap string (array num)) :=
tree_map (fun a => {| dt := dt a;
                      data := (fun v => nround (dt a) (ndiv v n)) <$> data a |})
         (fold_left (tree_multimap array_add) rest first).

End TrainSpec.

(** A caller's use of one object: a sequence of calls of its two methods,
    each on the attributes the call before it left behind. *)
Inductive invocation : Type :=
  | Train (s : CausalTransformer.sample)
  | Eval (obs target : list (list Z)).

Section CallSequences.
Context {num : Type} `{Engine num}.
Import CausalTransformer.

Variable loss_apply :
  bool -> gmap string (gmap string (array num)) -> list Z -> list Z -> array num.
Variable jax_grad :
  (gmap string (gmap string (array num)) -> list Z -> list Z -> array num) ->
  gmap string (gmap string (array num)) -> list Z -> list Z ->
  gmap string (gmap string (array num)).
Variable optimizer : GradientTransformation num.

Definition invoke (c : invocation) : method num :=
  match c with
  | Train s => train_method loss_apply jax_grad optimizer s
  | Eval obs target => eval_method loss_apply obs target
  end.

(** The values the calls return, in order. *)
Fixpoint run (cs : list invocation) : method (list num) :=
  match cs with
  | [] => mret []
  | c :: cs => l ← invoke c; ls ← run cs; mret (l :: ls)
  end.

(** The sequence without its evaluations, and the values that remain. *)
Fixpoint trainings (cs : list invocation) : list invocation :=
  match cs with
  | [] => []
  | Train s :: cs => Train s :: trainings cs
  | Eval _ _ :: cs => trainings cs
  end.

Fixpoint training_losses (cs : list invocation) (ls : list num) : list num :=
  match cs, ls with
  | Train _ :: cs, l :: ls => l :: training_losses cs ls
  | Eval _ _ :: cs, _ :: ls => training_losses cs ls
  | _, _ => []
  end.

End CallSequences.

(** A mapped list is not empty when the list is not. *)
Ltac fmap_nonempty :=
  match goal with
  | Hne : ?l <> [] |- _ <$> ?l <> [] =>
      destruct l; [congruence|]; rewrite fmap_cons; discriminate
  end.

(** ** Further predicates and examples *)

(** A value on a named axis is replicated when all indices hold the same
    thing. *)
Definition replicated {A : Type} (xs : list A) : Prop :=
  forall (i j : nat) (a b : A), xs !! i = Some a -> xs !! j = Some b -> a = b.

(** The end-to-end configuration of the specification. *)
Definition good_config : config unit :=
  {| n_vocab := 8; d_model := 4; cores_per_replica := 2; n_heads := 2;
     layers := 1; norm := "layernorm"; seq_len := 3; optimizer := tt |}.

(** A configuration with a negative layer count whose heads do not divide
    the model dimension. *)
Definition negative_layers_config : config unit :=
  {| n_vocab := 8; d_model := 5; cores_per_replica := 2; n_heads := 3;
     layers := -1; norm := "layernorm"; seq_len := 3; optimizer := tt |}.


(** Biases as the linear layer creates them. *)
Definition zero_bias_params : list Linear.linear_params :=
  [ {| Linear.w := [[5%R]]; Linear.b := [0%R] |};
    {| Linear.w := [[7%R]]; Linear.b := [0%R] |} ].

Section Layout.
Context {num : Type} `{Engine num}.

(** Two parameter trees are laid out alike: they have the same leaves,
    under the same module and parameter names, with as many entries.  The
    tree functions of the library are defined for such trees only. *)
Definition same_layout (a b : gmap string (gmap string (array num))) : Prop :=
  forall k n : string,
    match a !! k ≫= (.!! n), b !! k ≫= (.!! n) with
    | Some x, Some y => length (data x) = length (data y)
    | None, None => True
    | _, _ => False
    end.

(** Differentiation returns a tree laid out as the tree it differentiates
    at. *)
Definition grad_keeps_layout
    (jax_grad :
       (gmap string (gmap string (array num)) -> list Z -> list Z -> array num) ->
       gmap string (gmap string (array num)) -> list Z -> list Z ->
       gmap string (gmap string (array num))) : Prop :=
  forall f p ctx tgt, same_layout (jax_grad f p ctx tgt) p.

(** A gradient transformation returns updates laid out as the gradient it
    is given. *)
Definition update_keeps_layout (optimizer : GradientTransformation num) : Prop :=
  forall g s p, same_layout (update optimizer g s p).1 g.

End Layout.

(** * Proofs *)

(** ** Relative position bucketing *)

Section RelativePositionBucket.
Import RelativePositionEmbs.
Local Open Scope Z_scope.

Lemma wrap32_id (z : Z) : - 2 ^ 31 <= z < 2 ^ 31 -> wrap32 z = z.
Proof.
  intros Hz. unfold wrap32. rewrite Z.mod_small; lia.
Qed.

Lemma Int_part_nonneg (r : R) : (0 <= r)%R -> 0 <= Int_part r.
Proof.
  intros Hr. destruct (base_Int_part r) as [_ Hlo].
  assert (H1 : (-1 < IZR (Int_part r))%R) by lra.
  apply lt_IZR in H1. lia.
Qed.

Lemma Int_part_mono (r1 r2 : R) : (r1 <= r2)%R -> Int_part r1 <= Int_part r2.
Proof.
  intros Hle.
  destruct (base_Int_part r1) as [Hup1 _].
  destruct (base_Int_part r2) as [_ Hlo2].
  assert (H1 : (IZR (Int_part r1) < IZR (Int_part r2 + 1))%R).
  { rewrite plus_IZR. lra. }
  apply lt_IZR in H1. lia.
Qed.

Lemma astype_int32_mono (r1 r2 : R) :
  (0 <= r1 <= r2)%R -> astype_int32 r1 <= astype_int32 r2.
Proof.
  intros [H0 Hle]. unfold astype_int32.
  destruct (Rle_dec 0 r1); [|lra]. destruct (Rle_dec 0 r2); [|lra].
  now apply Int_part_mono.
Qed.

Lemma astype_int32_nonneg (r : R) : (0 <= r)%R -> 0 <= astype_int32 r.
Proof.
  intros H0. unfold astype_int32. destruct (Rle_dec 0 r); [|lra].
  now apply Int_part_nonneg.
Qed.

Lemma ln8_pos : (0 < ln (IZR 128 / IZR 16))%R.
Proof.
  rewrite <- ln_1. apply ln_increasing; lra.
Qed.

(** In the log regime the float expression is non-negative and grows with
    the distance. *)
Lemma log_term_mono (n1 n2 : Z) :
  16 <= n1 <= n2 -> (0 <= log_term n1 <= log_term n2)%R.
Proof.
  intros [H16 Hle]. unfold log_term, float32_eps.
  assert (Hn1 : (16 <= IZR n1)%R) by (now apply IZR_le).
  assert (Hn12 : (IZR n1 <= IZR n2)%R) by (now apply IZR_le).
  pose proof ln8_pos as H8.
  assert (Ha : (1 < IZR n1 / 16 + / 8388608)%R) by lra.
  assert (Hb : (IZR n1 / 16 + / 8388608 <= IZR n2 / 16 + / 8388608)%R) by lra.
  assert (Hl1 : (0 < ln (IZR n1 / 16 + / 8388608))%R).
  { rewrite <- ln_1. apply ln_increasing; lra. }
  assert (Hl2 : (ln (IZR n1 / 16 + / 8388608) <= ln (IZR n2 / 16 + / 8388608))%R).
  { destruct Hb as [Hb | Hb]; [left; apply ln_increasing; lra | rewrite Hb; lra]. }
  change (32 - 16) with 16.
  split.
  - apply Rmult_le_pos; [|lra]. apply Rmult_le_pos; [lra|].
    left. now apply Rinv_0_lt_compat.
  - apply Rmult_le_compat_r; [lra|]. apply Rmult_le_compat_r; [|lra].
    left. now apply Rinv_0_lt_compat.
Qed.

Lemma bucket_unfold (d : Z) :
  bucket d =
  let n := Z.max (wrap32 (- d)) 0 in
  if n <? 16 then n else Z.min (16 + astype_int32 (log_term n)) 31.
Proof. reflexivity. Qed.

(** C5.  With [num_buckets = 32] and [max_distance = 128], for offsets [d]
    between two int32 positions: the bucket does not decrease when [-d]
    grows; when [n = max(-d, 0) < 16] the bucket is [n] itself; and every
    bucket lies in [0, 31].  The float32 logarithm is idealised as the real
    logarithm. *)
Theorem relative_position_bucket_properties :
  (forall d1 d2 : Z,
      - 2 ^ 31 < d1 < 2 ^ 31 -> - 2 ^ 31 < d2 < 2 ^ 31 ->
      - d1 <= - d2 -> bucket d1 <= bucket d2) /\
  (forall d : Z,
      - 2 ^ 31 < d < 2 ^ 31 -> Z.max (- d) 0 < 16 -> bucket d = Z.max (- d) 0) /\
  (forall d : Z, 0 <= bucket d <= 31).
Proof.
  split; [|split].
  - intros d1 d2 H1 H2 Hle. rewrite !bucket_unfold. cbv zeta.
    rewrite !wrap32_id by lia.
    destruct (Z.ltb_spec (Z.max (- d1) 0) 16) as [Hs1|Hs1];
      destruct (Z.ltb_spec (Z.max (- d2) 0) 16) as [Hs2|Hs2].
    + lia.
    + pose proof (astype_int32_nonneg (log_term (Z.max (- d2) 0))
                    (proj1 (log_term_mono _ _ (conj Hs2 (Z.le_refl _))))). lia.
    + lia.
    + assert (Hm : astype_int32 (log_term (Z.max (- d1) 0))
                   <= astype_int32 (log_term (Z.max (- d2) 0))).
      { apply astype_int32_mono. apply log_term_mono. lia. }
      lia.
  - intros d Hd Hn. rewrite bucket_unfold. cbv zeta.
    assert (Hw : wrap32 (- d) = - d) by (apply wrap32_id; lia).
    rewrite Hw. destruct (Z.ltb_spec (Z.max (- d) 0) 16); lia.
  - intros d. rewrite bucket_unfold. cbv zeta.
    destruct (Z.ltb_spec (Z.max (wrap32 (- d)) 0) 16) as [Hs|Hs]; [lia|].
    pose proof (astype_int32_nonneg (log_term (Z.max (wrap32 (- d)) 0))
                    (proj1 (log_term_mono _ _ (conj Hs (Z.le_refl _))))). lia.
Qed.

Lemma relative_position_bucket_properties_witness :
  bucket (-20) <= bucket (-100) /\ bucket (-5) = 5 /\ 0 <= bucket 7 <= 31.
Proof.
  destruct relative_position_bucket_properties as (Hmono & Hexact & Hrange).
  split; [|split].
  - apply Hmono; lia.
  - apply (Hexact (-5)); lia.
  - apply Hrange.
Defined.

End RelativePositionBucket.

(** ** Lists of reals *)

Section ListsOfReals.
Local Open Scope R_scope.
(** *** Sums of reals over lists *)

Lemma rsum_nil : rsum [] = 0.
Proof. reflexivity. Qed.

Lemma rsum_cons (a : R) (v : list R) : rsum (a :: v) = a + rsum v.
Proof. reflexivity. Qed.

Lemma rsum_app (u v : list R) : rsum (u ++ v) = rsum u + rsum v.
Proof.
  induction u as [|a u IH].
  - rewrite app_nil_l, rsum_nil. lra.
  - rewrite <- app_comm_cons, !rsum_cons, IH. lra.
Qed.

Lemma rsum_concat (vs : list (list R)) : rsum (concat vs) = rsum (rsum <$> vs).
Proof.
  induction vs as [|v vs IH]; [reflexivity|].
  rewrite fmap_cons, rsum_cons. simpl concat. rewrite rsum_app, IH. reflexivity.
Qed.

Lemma rsum_shift_exp (g : R) (row : list R) :
  rsum ((fun l => exp (l - g)) <$> row) = exp (- g) * rsum (exp <$> row).
Proof.
  induction row as [|a row IH].
  - rewrite !fmap_nil, rsum_nil. lra.
  - rewrite !fmap_cons, !rsum_cons, IH.
    replace (a - g) with (a + - g) by lra. rewrite exp_plus. lra.
Qed.

Lemma rsum_exp_nonneg (row : list R) : 0 <= rsum (exp <$> row).
Proof.
  induction row as [|b row IH].
  - rewrite fmap_nil, rsum_nil. lra.
  - rewrite fmap_cons, rsum_cons. pose proof (exp_pos b). lra.
Qed.

Lemma rsum_exp_pos (row : list R) : row <> [] -> 0 < rsum (exp <$> row).
Proof.
  destruct row as [|a row]; [congruence|]. intros _.
  rewrite fmap_cons, rsum_cons.
  pose proof (exp_pos a). pose proof (rsum_exp_nonneg row). lra.
Qed.

(** *** One-hot selection *)

Lemma onehot_select_from (i a : Z) (row : list R) :
  rsum (zip_with Rmult
          ((fun j => if (i =? j)%Z then 1 else 0) <$> seqZ a (Z.of_nat (length row))) row)
  = if decide (a <= i < a + Z.of_nat (length row))%Z
    then nth (Z.to_nat (i - a)) row 0 else 0.
Proof.
  revert a. induction row as [|x row IH]; intros a.
  - simpl. case_decide; [lia|]. reflexivity.
  - rewrite seqZ_cons by (simpl; lia).
    replace (Z.pred (Z.of_nat (length (x :: row)))) with (Z.of_nat (length row))
      by (simpl; lia).
    rewrite fmap_cons. simpl zip_with. rewrite rsum_cons, IH.
    destruct (Z.eqb_spec i a) as [->|Hne].
    + replace (a - a)%Z with 0%Z by lia. change (Z.to_nat 0) with 0%nat.
      cbn [nth]. simpl length.
      case_decide; [lia|]. case_decide; [|lia]. lra.
    + case_decide as H1; case_decide as H2; simpl length in *; try lia; try lra.
      replace (Z.to_nat (i - a)) with (S (Z.to_nat (i - Z.succ a))) by lia.
      simpl. lra.
Qed.

Lemma onehot_select (i n : Z) (row : list R) :
  Z.of_nat (length row) = n ->
  rsum (zip_with Rmult (ProjectionShard.one_hot i n) row)
  = if decide (0 <= i < n)%Z then nth (Z.to_nat i) row 0 else 0.
Proof.
  intros <-. unfold ProjectionShard.one_hot, py_range.
  rewrite Z.sub_0_r, onehot_select_from. rewrite Z.sub_0_r. reflexivity.
Qed.

Lemma length_concat_uniform (rows : list (list R)) (d : nat) :
  Forall (fun row => length row = d) rows ->
  length (concat rows) = (length rows * d)%nat.
Proof.
  induction 1 as [|row rows Hrow _ IH]; [reflexivity|].
  simpl. rewrite length_app, IH, Hrow. reflexivity.
Qed.

(** Exactly one shard owns the target: the shards' selections add up to the
    target's entry of the concatenated rows. *)
Lemma onehot_shards (tgt D : Z) (rows : list (list R)) (a : nat) :
  (0 < D)%Z ->
  Forall (fun row => length row = Z.to_nat D) rows ->
  rsum (imap (fun s row =>
                rsum (zip_with Rmult
                        (ProjectionShard.one_hot (tgt - Z.of_nat (a + s) * D) D) row)) rows)
  = if decide (Z.of_nat a * D <= tgt < Z.of_nat (a + length rows) * D)%Z
    then nth (Z.to_nat (tgt - Z.of_nat a * D)) (concat rows) 0 else 0.
Proof.
  intros HD Hrows. revert a. induction Hrows as [|row rows Hrow Hrows IH]; intros a.
  - simpl. case_decide; [lia|]. reflexivity.
  - rewrite imap_cons, rsum_cons.
    rewrite (imap_ext _ (fun s row0 => rsum (zip_with Rmult
               (ProjectionShard.one_hot (tgt - Z.of_nat (S a + s) * D) D) row0)))
      by (intros s r _; simpl; repeat f_equal; lia).
    rewrite IH. rewrite (onehot_select _ D row) by lia.
    replace (a + 0)%nat with a by lia. simpl concat. simpl length.
    repeat case_decide; try lia; try lra.
    + rewrite app_nth1 by lia. lra.
    + rewrite app_nth2 by lia. rewrite Hrow.
      replace (Z.to_nat (tgt - Z.of_nat a * D) - Z.to_nat D)%nat
        with (Z.to_nat (tgt - Z.of_nat (S a) * D)) by lia. lra.
Qed.

(** *** Indexing through maps and zips *)

Lemma nth_fmap_lt {A B : Type} (f : A -> B) (l : list A) (i : nat) (da : A) (db : B) :
  (i < length l)%nat -> nth i (f <$> l) db = f (nth i l da).
Proof.
  intros Hi. destruct (lookup_lt_is_Some_2 l i Hi) as [a Ha].
  rewrite (nth_lookup_Some l i da a Ha).
  apply nth_lookup_Some. rewrite list_lookup_fmap, Ha. reflexivity.
Qed.

Lemma nth_zip_with_lt {A B C : Type} (f : A -> B -> C) (l : list A) (k : list B)
    (i : nat) (da : A) (db : B) (dc : C) :
  (i < length l)%nat -> (i < length k)%nat ->
  nth i (zip_with f l k) dc = f (nth i l da) (nth i k db).
Proof.
  intros Hl Hk.
  destruct (lookup_lt_is_Some_2 l i Hl) as [a Ha].
  destruct (lookup_lt_is_Some_2 k i Hk) as [b Hb].
  rewrite (nth_lookup_Some l i da a Ha), (nth_lookup_Some k i db b Hb).
  apply nth_lookup_Some. rewrite lookup_zip_with, Ha, Hb. reflexivity.
Qed.

(** *** Sums and maxima of one vector per shard *)

Lemma fold_zip_length (f : R -> R -> R) (rest : list (list R)) (x : list R) (n : nat) :
  length x = n -> Forall (fun v => length v = n) rest ->
  length (fold_left (zip_with f) rest x) = n.
Proof.
  intros Hx Hrest. revert x Hx.
  induction Hrest as [|v rest Hv _ IH]; intros x Hx; [exact Hx|].
  simpl. apply IH. rewrite length_zip_with. lia.
Qed.

Lemma fold_zip_plus_nth (rest : list (list R)) (x : list R) (n t : nat) :
  length x = n -> Forall (fun v => length v = n) rest -> (t < n)%nat ->
  nth t (fold_left (zip_with Rplus) rest x) 0
  = nth t x 0 + rsum ((fun v => nth t v 0) <$> rest).
Proof.
  intros Hx Hrest Ht. revert x Hx.
  induction Hrest as [|v rest Hv _ IH]; intros x Hx.
  - simpl fold_left. rewrite fmap_nil, rsum_nil. lra.
  - simpl fold_left. rewrite IH by (rewrite length_zip_with; lia).
    rewrite fmap_cons, rsum_cons.
    rewrite (nth_zip_with_lt Rplus x v t 0 0 0) by lia. lra.
Qed.

Lemma psum_vectors (vs : list (list R)) (n : nat) :
  vs <> [] -> Forall (fun v => length v = n) vs ->
  exists S : list R,
    Collective.psum vs = (fun _ => S) <$> vs /\ length S = n /\
    forall t, (t < n)%nat -> nth t S 0 = rsum ((fun v => nth t v 0) <$> vs).
Proof.
  destruct vs as [|x rest]; [congruence|]. intros _ Hall.
  apply Forall_cons in Hall as [Hx Hrest].
  exists (fold_left (zip_with Rplus) rest x). split; [reflexivity|]. split.
  - now apply fold_zip_length.
  - intros t Ht. rewrite fmap_cons, rsum_cons. now apply fold_zip_plus_nth with (n := n).
Qed.

Lemma pmax_vectors (vs : list (list R)) (n : nat) :
  vs <> [] -> Forall (fun v => length v = n) vs ->
  exists G : list R, ProjectionShard.pmax vs = (fun _ => G) <$> vs /\ length G = n.
Proof.
  destruct vs as [|x rest]; [congruence|]. intros _ Hall.
  apply Forall_cons in Hall as [Hx Hrest].
  exists (fold_left (zip_with Rmax) rest x). split; [reflexivity|].
  now apply fold_zip_length.
Qed.

Lemma lookup_nth_lt {A : Type} (l : list A) (i : nat) (d : A) :
  (i < length l)%nat -> l !! i = Some (nth i l d).
Proof.
  intros Hi. destruct (nth_lookup_or_length l i d) as [H|H]; [exact H|lia].
Qed.

Lemma rsum_rows_shift_exp (g : R) (rows : list (list R)) :
  rsum ((fun row => rsum ((fun l => exp (l - g)) <$> row)) <$> rows)
  = exp (- g) * rsum (exp <$> concat rows).
Proof.
  induction rows as [|row rows IH].
  - simpl concat. rewrite !fmap_nil, rsum_nil. lra.
  - rewrite fmap_cons, rsum_cons, IH, rsum_shift_exp. simpl concat.
    rewrite fmap_app, rsum_app. lra.
Qed.

Lemma concat_fmap_fmap {A B : Type} (f : A -> B) (ls : list (list A)) :
  concat (fmap (M := list) (fmap (M := list) f) ls) = f <$> concat ls.
Proof.
  induction ls as [|l ls IH]; [reflexivity|].
  rewrite fmap_cons. simpl concat. rewrite fmap_app, IH. reflexivity.
Qed.

Lemma fold_zip_nth {A : Type} (f : A -> A -> A) (rest : list (list A)) (x : list A)
    (n t : nat) (d : A) :
  length x = n -> Forall (fun v => length v = n) rest -> (t < n)%nat ->
  nth t (fold_left (zip_with f) rest x) d
  = fold_left f ((fun v => nth t v d) <$> rest) (nth t x d).
Proof.
  intros Hx Hrest Ht. revert x Hx.
  induction Hrest as [|v rest Hv _ IH]; intros x Hx; [reflexivity|].
  rewrite fmap_cons. simpl fold_left. rewrite IH by (rewrite length_zip_with; lia).
  rewrite (nth_zip_with_lt f x v t d d d) by lia. reflexivity.
Qed.

Lemma fold_zip_length_gen {A : Type} (f : A -> A -> A) (rest : list (list A)) (x : list A) (n : nat) :
  length x = n -> Forall (fun v => length v = n) rest ->
  length (fold_left (zip_with f) rest x) = n.
Proof.
  intros Hx Hrest. revert x Hx.
  induction Hrest as [|v rest Hv _ IH]; intros x Hx; [exact Hx|].
  simpl. apply IH. rewrite length_zip_with. lia.
Qed.

Lemma list_eq_nth (l1 l2 : list R) :
  length l1 = length l2 ->
  (forall j, (j < length l1)%nat -> nth j l1 0 = nth j l2 0) -> l1 = l2.
Proof.
  intros Hlen Hnth. apply list_eq. intros j.
  destruct (decide (j < length l1)%nat) as [Hj|Hj].
  - rewrite (lookup_nth_lt l1 j 0 Hj), (lookup_nth_lt l2 j 0) by lia.
    f_equal. now apply Hnth.
  - rewrite !lookup_ge_None_2 by lia. reflexivity.
Qed.

(** *** The linear layer on a one-hot row *)

Lemma vecmat_length (od : nat) (row : list R) (w : list (list R)) :
  Forall (fun r => length r = od) w -> length (Linear.vecmat od row w) = od.
Proof.
  intros Hw. unfold Linear.vecmat. revert row.
  induction Hw as [|r w Hr _ IH]; intros row.
  - destruct row; simpl; apply repeat_length.
  - destruct row as [|xi row]; simpl; [apply repeat_length|].
    rewrite length_zip_with, length_fmap, IH. lia.
Qed.

Lemma vecmat_nth (od : nat) (row : list R) (w : list (list R)) (j : nat) :
  Forall (fun r => length r = od) w -> (j < od)%nat ->
  nth j (Linear.vecmat od row w) 0
  = rsum (zip_with Rmult row ((fun r => nth j r 0) <$> w)).
Proof.
  intros Hw Hj. revert row.
  induction Hw as [|r w Hr Hw IH]; intros row.
  - destruct row; simpl; rewrite ?rsum_nil; apply nth_repeat.
  - destruct row as [|xi row].
    + simpl. rewrite ?rsum_nil. apply nth_repeat.
    + rewrite fmap_cons. simpl zip_with. rewrite rsum_cons, <- IH.
      change (Linear.vecmat od (xi :: row) (r :: w))
        with (zip_with Rplus (Rmult xi <$> r) (Linear.vecmat od row w)).
      rewrite (nth_zip_with_lt Rplus _ _ j 0 0 0)
        by (rewrite ?length_fmap, ?vecmat_length; auto; lia).
      rewrite (nth_fmap_lt (Rmult xi) r j 0 0) by lia. reflexivity.
Qed.

Lemma rsum_zip_zeros (n : nat) (col : list R) :
  rsum (zip_with Rmult (replicate n 0) col) = 0.
Proof.
  revert col. induction n as [|n IH]; intros [|c col]; try reflexivity.
  cbn [replicate zip_with]. rewrite rsum_cons, IH. lra.
Qed.

Lemma one_hot_outside (i n : Z) :
  ~ (0 <= i < n)%Z -> ProjectionShard.one_hot i n = replicate (Z.to_nat n) 0.
Proof.
  intros Hout. unfold ProjectionShard.one_hot, py_range.
  rewrite Z.sub_0_r. symmetry. apply replicate_as_Forall. split.
  - rewrite length_fmap. apply length_seqZ.
  - apply Forall_fmap, Forall_forall. intros j Hj. apply elem_of_seqZ in Hj.
    simpl. destruct (Z.eqb_spec i j); [lia|reflexivity].
Qed.

End ListsOfReals.

(** ** The sharded cross-entropy *)

Section ShardedLoss.
Import ProjectionShard.
Local Open Scope R_scope.

Lemma well_shaped_rows n d Ls tok :
  well_shaped n d Ls -> (tok < n)%nat ->
  Forall (fun row => length row = d) ((fun L => nth tok L []) <$> Ls).
Proof.
  intros Hs Htok. apply Forall_fmap. eapply Forall_impl; [exact Hs|].
  intros L [HL Hrows]. simpl.
  destruct (lookup_lt_is_Some_2 L tok ltac:(lia)) as [row Hrow].
  rewrite (nth_lookup_Some _ _ _ _ Hrow).
  eapply Forall_lookup_1 in Hrows; eauto.
Qed.

Lemma loss_of_shaped_logits (m : t) (params : list proj_params) (x : list (list (list R)))
    (targets : list Z) (z_loss : bool) (s tok : nat) (tgt : Z) :
  well_shaped (length targets) (Z.to_nat (dim_per_shard m)) (local_logits m params x) ->
  (s < length (local_logits m params x))%nat ->
  targets !! tok = Some tgt ->
  (0 <= tgt < Z.of_nat (length (local_logits m params x)) * dim_per_shard m)%Z ->
  exists all_logits : list R,
    __call__ m params x !! s ≫= (.!! tok) = Some all_logits /\
    loss m params x targets z_loss !! s ≫= (.!! tok)
    = Some (cross_entropy all_logits (Z.to_nat tgt)).
Proof.
  intros Hshape Hs Htok Htgt.
  unfold __call__, loss. cbv zeta. cbn [primal f_psum f_psum_primal g_psum g_psum_primal].
  unfold f_psum_primal, g_psum_primal.
  remember (local_logits m params x) as Ls eqn:HLs. clear HLs.
  set (D := dim_per_shard m) in *. set (n := length targets) in *.
  assert (HD : (0 < D)%Z) by nia.
  assert (Hn : (tok < n)%nat) by (apply lookup_lt_Some in Htok; exact Htok).
  assert (Hne : Ls <> []) by (destruct Ls; simpl in Hs; [lia|congruence]).
  set (rows := (fun L => nth tok L []) <$> Ls).
  assert (Hrows : Forall (fun row => length row = Z.to_nat D) rows)
    by (now apply well_shaped_rows with (n := n)).
  exists (concat rows). split.
  - (* the gathered, concatenated logits *)
    unfold Collective.all_gather. rewrite !list_lookup_fmap.
    destruct (lookup_lt_is_Some_2 Ls s Hs) as [Ls_s HLs_s]. rewrite HLs_s. simpl.
    unfold transpose_flatten. destruct Ls as [|first rest] eqn:E; [congruence|].
    rewrite list_lookup_imap. apply Forall_cons in Hshape as [[Hfirst _] _].
    destruct (lookup_lt_is_Some_2 first tok ltac:(lia)) as [r Hr]. rewrite Hr.
    reflexivity.
  - (* the sharded loss *)
    destruct (pmax_vectors (fmap (M := list) (fmap (M := list) row_max) Ls) n)
      as (G & HG & HGlen).
    { fmap_nonempty. }
    { apply Forall_fmap. eapply Forall_impl; [exact Hshape|].
      intros L [HL _]. simpl. rewrite length_fmap. exact HL. }
    rewrite HG. clear HG.
    rewrite zip_with_fmap_r.
    rewrite <- list_fmap_compose, zip_with_fmap_r, zip_with_diag.
    set (shift := fun L : list (list R) =>
           zip_with (fun (row : list R) (mx : R) => (fun l : R => l - mx) <$> row) L G).
    set (g := nth tok G 0).
    assert (Hshift : forall L, length L = n ->
              length (shift L) = n /\
              nth tok (shift L) [] = (fun l => l - g) <$> nth tok L []).
    { intros L HL. unfold shift. split; [rewrite length_zip_with; lia|].
      rewrite (nth_zip_with_lt _ L G tok [] 0 []) by lia. reflexivity. }
    set (F := fun (axis_index : nat) (lg : list (list R)) =>
           zip_with (fun (tgt0 : Z) (row : list R) =>
                       rsum (zip_with Rmult
                               (one_hot (tgt0 - Z.of_nat axis_index * D) D) row))
                    targets lg).
    destruct (psum_vectors
                (fmap (M := list) rsum ∘ fmap (M := list) (fmap (M := list) exp)
                   <$> (shift <$> Ls)) n) as (S & HS & HSlen & HSnth).
    { destruct Ls; [congruence|]. rewrite !fmap_cons. discriminate. }
    { rewrite <- list_fmap_compose. apply Forall_fmap.
      eapply Forall_impl; [exact Hshape|]. intros L [HL _]. simpl.
      rewrite !length_fmap. now apply Hshift. }
    destruct (psum_vectors (Collective.with_axis_index F (shift <$> Ls)) n)
      as (P & HP & HPlen & HPnth).
    { destruct Ls; [congruence|]. unfold Collective.with_axis_index.
      rewrite fmap_cons, imap_cons. discriminate. }
    { unfold Collective.with_axis_index. apply Forall_lookup_2. intros i v Hv.
      apply list_lookup_imap_Some in Hv as (L' & HL' & ->).
      apply list_lookup_fmap_Some_1 in HL' as (L & -> & HL).
      eapply Forall_lookup_1 in Hshape as [HLn _]; [|exact HL].
      unfold F. rewrite length_zip_with. destruct (Hshift L HLn) as [Hl _].
      fold n. lia. }
    rewrite HS, HP. clear HS HP.
    unfold Collective.with_axis_index in *.
    rewrite (lookup_nth_lt _ s []).
    2:{ rewrite length_zip_with, !length_fmap, length_imap, length_fmap. lia. }
    cbn [mbind option_bind].
    rewrite (nth_zip_with_lt _ _ _ s [] [] [])
      by (rewrite ?length_fmap, ?length_imap, ?length_fmap; lia).
    rewrite (nth_fmap_lt _ _ s [] []) by (rewrite ?length_fmap; lia).
    rewrite (nth_fmap_lt _ _ s [] []) by (rewrite ?length_imap, ?length_fmap; lia).
    rewrite (lookup_nth_lt _ tok 0) by (rewrite length_zip_with; lia).
    f_equal.
    rewrite (nth_zip_with_lt _ S P tok 0 0 0) by lia.
    rewrite HSnth, HPnth by lia. clear HSnth HPnth.
    (* the exp-sum *)
    assert (HSE : (fun v : list R => nth tok v 0) <$>
                    (fmap (M := list) rsum ∘ fmap (M := list) (fmap (M := list) exp)
                       <$> (shift <$> Ls))
                  = (fun row => rsum ((fun l => exp (l - g)) <$> row)) <$> rows).
    { unfold rows. rewrite <- !list_fmap_compose. apply Forall_fmap_ext.
      eapply Forall_impl; [exact Hshape|]. intros L [HL _]. simpl.
      destruct (Hshift L HL) as [Hlen Hnth].
      rewrite (nth_fmap_lt rsum _ tok [] 0) by (rewrite length_fmap; lia).
      rewrite (nth_fmap_lt (fmap exp) _ tok [] []) by lia.
      rewrite Hnth, <- list_fmap_compose. reflexivity. }
    rewrite HSE, rsum_rows_shift_exp. clear HSE.
    (* the target logit *)
    assert (HPL : (fun v : list R => nth tok v 0) <$> imap F (shift <$> Ls)
                  = imap (fun s' row =>
                            rsum (zip_with Rmult
                                    (one_hot (tgt - Z.of_nat (0 + s') * D) D) row))
                         (fmap (M := list) (fun l => l - g) <$> rows)).
    { unfold rows. rewrite fmap_imap, !imap_fmap. apply imap_ext.
      intros i L HL. simpl.
      eapply Forall_lookup_1 in Hshape as [HLn _]; [|exact HL].
      destruct (Hshift L HLn) as [Hlen Hnth]. unfold F.
      rewrite (nth_zip_with_lt _ targets (shift L) tok 0%Z [] 0) by (fold n; lia).
      rewrite (nth_lookup_Some _ _ _ _ Htok), Hnth. reflexivity. }
    rewrite HPL. clear HPL.
    rewrite onehot_shards; [|exact HD|].
    2:{ apply Forall_fmap. eapply Forall_impl; [exact Hrows|].
        intros row Hrow. simpl. rewrite length_fmap. exact Hrow. }
    assert (Hlen_rows : length rows = length Ls) by (unfold rows; now rewrite length_fmap).
    assert (Hlen_concat : length (concat rows) = (length Ls * Z.to_nat D)%nat).
    { rewrite (length_concat_uniform rows (Z.to_nat D) Hrows), Hlen_rows. reflexivity. }
    rewrite length_fmap, Hlen_rows.
    case_decide as Hin; [|lia].
    rewrite concat_fmap_fmap.
    rewrite (nth_fmap_lt _ _ _ 0 0) by nia.
    replace (tgt - Z.of_nat 0 * D)%Z with tgt by lia.
    unfold cross_entropy.
    assert (Hpos : 0 < rsum (exp <$> concat rows)).
    { apply rsum_exp_pos. intros Hnil. rewrite Hnil in Hlen_concat.
      simpl in Hlen_concat. nia. }
    rewrite ln_mult by (auto using exp_pos). rewrite ln_exp. lra.
Qed.

Lemma psum_length {T : Type} `{Summable T} (xs : list T) :
  length (Collective.psum xs) = length xs.
Proof.
  unfold Collective.psum. destruct (Collective.total xs) eqn:E.
  - now rewrite length_fmap.
  - destruct xs; [reflexivity|discriminate].
Qed.

Lemma pmean_length {T : Type} `{Summable T} (xs : list T) :
  length (Collective.pmean xs) = length xs.
Proof. unfold Collective.pmean. now rewrite length_fmap, psum_length. Qed.

Lemma norm_call_shape (nm : Norm.norm_module) (nps : list Norm.norm_params)
    (x : list (list (list R))) (n : nat) :
  length nps = length x -> Forall (fun M => length M = n) x ->
  length (Norm.call nm nps x) = length x /\
  Forall (fun M => length M = n) (Norm.call nm nps x).
Proof.
  intros Hlen Hx.
  assert (Hgen : forall (ps : list (list R * list R)) (f : list R -> list R -> list R -> list R),
             length ps = length x ->
             length (zip_with (fun '(s, o) xs => f s o <$> xs) ps x) = length x /\
             Forall (fun M => length M = n)
                    (zip_with (fun '(s, o) xs => f s o <$> xs) ps x)).
  { intros ps f Hps. split.
    - rewrite length_zip_with. lia.
    - apply Forall_lookup_2. intros i M HM.
      apply lookup_zip_with_Some in HM as ([s o] & xs & -> & _ & Hxs).
      rewrite length_fmap. eapply Forall_lookup_1 in Hx; eauto. }
  destruct nm as [o|o e]; cbn [Norm.call].
  - unfold Norm.ReplicatedLayerNorm_call. cbv zeta. apply Hgen.
    cbn [primal f_psum]. unfold f_psum_primal.
    rewrite length_zip_with, !length_fmap. lia.
  - unfold Norm.RMSNorm_call. cbv zeta. apply Hgen.
    rewrite length_zip_with, !pmean_length, !length_fmap. lia.
Qed.

Lemma linear_call_shape (d : nat) (p : Linear.linear_params) (M : list (list R)) :
  length (Linear.b p) = d -> Forall (fun r => length r = d) (Linear.w p) ->
  length (Linear.call d true p M) = length M /\
  Forall (fun row => length row = d) (Linear.call d true p M).
Proof.
  intros Hb Hw. unfold Linear.call. split; [now rewrite length_fmap|].
  apply Forall_fmap, Forall_forall. intros row _. simpl.
  rewrite length_zip_with, vecmat_length by exact Hw. lia.
Qed.

Lemma local_logits_shape (m : ProjectionShard.t) (params : list ProjectionShard.proj_params)
    (x : list (list (list R))) (n : nat) :
  length x = length params ->
  Forall (fun M => length M = n) x ->
  Forall (proj_shaped (Z.to_nat (ProjectionShard.dim_per_shard m))) params ->
  length (ProjectionShard.local_logits m params x) = length params /\
  well_shaped n (Z.to_nat (ProjectionShard.dim_per_shard m))
    (ProjectionShard.local_logits m params x).
Proof.
  intros Hlen Hx Hp. unfold ProjectionShard.local_logits. cbv zeta.
  destruct (norm_call_shape (ProjectionShard.norm m) (ProjectionShard.norm_p <$> params) x n)
    as [Hnl Hn]; [now rewrite length_fmap|exact Hx|].
  split.
  - rewrite length_zip_with. lia.
  - apply Forall_lookup_2. intros i L HL.
    apply lookup_zip_with_Some in HL as (p & xs & -> & Hpi & Hxs).
    eapply Forall_lookup_1 in Hp as [Hb Hw]; [|exact Hpi].
    eapply Forall_lookup_1 in Hn; [|exact Hxs]. simpl in Hn.
    destruct (linear_call_shape _ (ProjectionShard.proj p) xs Hb Hw) as [Hl Hr].
    split; [lia|exact Hr].
Qed.

(** C1.  On every shard and for every token, the sharded protocol of
    [ProjectionShard.loss] (global max, one-hot target logit combined by a
    forward sum, local exp-sums combined by a forward sum) returns
    [log(sum(exp(all_logits))) - all_logits[target]], where [all_logits] is
    the row of concatenated logits that [__call__] gathers.  Floats are
    idealised as reals, so the equality is exact. *)
Theorem sharded_loss_is_cross_entropy (m : ProjectionShard.t) (params : list ProjectionShard.proj_params)
    (x : list (list (list R))) (targets : list Z) (z_loss : bool) (s tok : nat) (tgt : Z) :
  length x = length params ->
  Forall (fun M => length M = length targets) x ->
  Forall (proj_shaped (Z.to_nat (ProjectionShard.dim_per_shard m))) params ->
  (s < length params)%nat ->
  targets !! tok = Some tgt ->
  (0 <= tgt < Z.of_nat (length params) * ProjectionShard.dim_per_shard m)%Z ->
  exists all_logits : list R,
    ProjectionShard.__call__ m params x !! s ≫= (.!! tok) = Some all_logits /\
    ProjectionShard.loss m params x targets z_loss !! s ≫= (.!! tok)
    = Some (ProjectionShard.cross_entropy all_logits (Z.to_nat tgt)).
Proof.
  intros Hlen Hx Hp Hs Htok Htgt.
  destruct (local_logits_shape m params x (length targets) Hlen Hx Hp) as [Hl Hshape].
  apply loss_of_shaped_logits; try assumption; rewrite Hl; assumption.
Qed.

Lemma sharded_loss_is_cross_entropy_witness :
  exists all_logits : list R,
    ProjectionShard.__call__ vocab8_projection vocab8_params unit_activations !! 0%nat
      ≫= (.!! 0%nat) = Some all_logits /\
    ProjectionShard.loss vocab8_projection vocab8_params unit_activations [5%Z] false !! 0%nat
      ≫= (.!! 0%nat)
    = Some (ProjectionShard.cross_entropy all_logits (Z.to_nat 5)).
Proof.
  apply (sharded_loss_is_cross_entropy vocab8_projection vocab8_params unit_activations
           [5%Z] false 0 0 5).
  - reflexivity.
  - repeat constructor.
  - repeat constructor.
  - simpl. lia.
  - reflexivity.
  - simpl. lia.
Defined.

End ShardedLoss.

(** ** The sharded embedding *)

Section Embedding.
Import EmbeddingShard Linear.
Local Open Scope R_scope.

Lemma local_onehot_one_hot (m : t) (s : nat) (x : list Z) :
  local_onehot m s x
  = (fun tok => ProjectionShard.one_hot (tok - Z.of_nat s * in_dim_per_shard m)
                                         (in_dim_per_shard m)) <$> x.
Proof.
  unfold local_onehot, ProjectionShard.one_hot. apply list_fmap_ext.
  intros _ tok _. rewrite <- list_fmap_compose. apply list_fmap_ext.
  intros _ j _. simpl.
  destruct (Z.eqb_spec (j + Z.of_nat s * in_dim_per_shard m) tok);
    destruct (Z.eqb_spec (tok - Z.of_nat s * in_dim_per_shard m) j); try reflexivity; lia.
Qed.

(** The projection of a row that selects nothing is the bias. *)
Lemma linear_zero_row (od ips : nat) (p : linear_params) :
  linear_shaped ips od p ->
  zip_with Rplus (vecmat od (replicate ips 0) (w p)) (b p) = b p.
Proof.
  intros (Hb & Hw & Hrows). apply list_eq_nth.
  - rewrite length_zip_with, vecmat_length by exact Hrows. lia.
  - intros j Hj. rewrite length_zip_with, vecmat_length in Hj by exact Hrows.
    rewrite (nth_zip_with_lt Rplus _ _ j 0 0 0)
      by (rewrite ?vecmat_length; auto; lia).
    rewrite vecmat_nth by (auto; lia). rewrite rsum_zip_zeros. lra.
Qed.

Lemma proj_out_row (m : t) (params : list linear_params) (x : list Z)
    (s tok_i : nat) (p : linear_params) (tok : Z) :
  params !! s = Some p -> x !! tok_i = Some tok ->
  proj_out m params x !! s ≫= (.!! tok_i)
  = Some (zip_with Rplus
            (vecmat (Z.to_nat (out_dim m))
               (ProjectionShard.one_hot (tok - Z.of_nat s * in_dim_per_shard m)
                  (in_dim_per_shard m)) (w p))
            (b p)).
Proof.
  intros Hp Hx. unfold proj_out, Collective.with_axis_index.
  rewrite list_lookup_imap, Hp. cbn [fmap option_fmap option_map mbind option_bind].
  unfold call. rewrite list_lookup_fmap, local_onehot_one_hot, list_lookup_fmap, Hx.
  reflexivity.
Qed.

Lemma rsum_imap_plus {A : Type} (f : nat -> A -> R) (g : A -> R) (l : list A) :
  rsum (imap (fun s p => f s p + g p) l) = rsum (imap f l) + rsum (g <$> l).
Proof.
  revert f. induction l as [|a l IH]; intros f.
  - cbn [imap fmap list_fmap]. rewrite ?rsum_nil. change (rsum []) with 0. lra.
  - rewrite !imap_cons, fmap_cons, !rsum_cons.
    change ((fun s p => f s p + g p) ∘ S) with (fun s p => (f ∘ S) s p + g p).
    rewrite IH. lra.
Qed.

Lemma nth_concat_fmap_col (j tok : nat) (ws : list (list (list R))) :
  (tok < length (concat ws))%nat ->
  nth tok (concat (fmap (M := list) (fmap (M := list) (fun r : list R => nth j r 0)) ws)) 0
  = nth j (nth tok (concat ws) []) 0.
Proof.
  intros Htok. rewrite concat_fmap_fmap.
  now rewrite (nth_fmap_lt _ _ tok [] 0).
Qed.

Lemma embedding_sum_of_partial_outputs (m : t) (params : list linear_params) (x : list Z)
    (s tok_i : nat) (tok : Z) :
  (0 < in_dim_per_shard m)%Z ->
  Forall (linear_shaped (Z.to_nat (in_dim_per_shard m)) (Z.to_nat (out_dim m))) params ->
  x !! tok_i = Some tok ->
  (0 <= tok < Z.of_nat (length params) * in_dim_per_shard m)%Z ->
  (s < length params)%nat ->
  exists bias_sum : list R,
    Collective.total (b <$> params) = Some bias_sum /\
    __call__ m params x !! s ≫= (.!! tok_i)
    = Some (zip_with Rplus (nth (Z.to_nat tok) (concat (w <$> params)) []) bias_sum).
Proof.
  intros Hips Hshape Hx Htok Hs.
  set (ips := in_dim_per_shard m) in *. set (od := Z.to_nat (out_dim m)) in *.
  destruct params as [|p0 prest] eqn:Eparams; [simpl in Hs; lia|].
  rewrite <- Eparams in *.
  assert (Htoki : (tok_i < length x)%nat) by (now apply lookup_lt_Some in Hx).
  (* shapes of the partial outputs *)
  assert (Hrow : forall i p, params !! i = Some p ->
            nth tok_i (nth i (proj_out m params x) []) []
            = zip_with Rplus
                (vecmat od (ProjectionShard.one_hot (tok - Z.of_nat i * ips) ips) (w p))
                (b p)).
  { intros i p Hp. pose proof (proj_out_row m params x i tok_i p tok Hp Hx) as Hr.
    destruct (proj_out m params x !! i) as [M|] eqn:EM; [|discriminate].
    simpl in Hr. rewrite (nth_lookup_Some _ _ _ _ EM).
    now rewrite (nth_lookup_Some _ _ _ _ Hr). }
  assert (Hlen : length (proj_out m params x) = length params).
  { unfold proj_out, Collective.with_axis_index. apply length_imap. }
  assert (Hrows_n : Forall (fun M => length M = length x) (proj_out m params x)).
  { unfold proj_out, Collective.with_axis_index. apply Forall_lookup_2.
    intros i M HM. apply list_lookup_imap_Some in HM as (p & _ & ->).
    unfold call, local_onehot. now rewrite !length_fmap. }
  exists (fold_left (zip_with Rplus) (b <$> prest) (b p0)). split.
  { rewrite Eparams. reflexivity. }
  unfold __call__. cbn [primal g_psum]. unfold g_psum_primal, Collective.psum.
  assert (Hex : exists M0 Mrest, proj_out m params x = M0 :: Mrest).
  { destruct (proj_out m params x) as [|M0 Mrest]; [rewrite Eparams in Hlen; simpl in Hlen; lia|].
    eauto. }
  destruct Hex as (M0 & Mrest & EP). rewrite EP.
  cbn [Collective.total].
  rewrite list_lookup_fmap, (lookup_nth_lt _ s []) by (rewrite <- EP; lia).
  cbn [fmap option_fmap option_map mbind option_bind].
  change (@tadd (list (list R)) _) with (zip_with (zip_with Rplus)).
  rewrite EP in Hrows_n. apply Forall_cons in Hrows_n as [HM0 HMrest].
  rewrite (lookup_nth_lt _ tok_i []) by (rewrite (fold_zip_length_gen _ _ _ (length x)); auto).
  f_equal.
  rewrite (fold_zip_nth _ Mrest M0 (length x) tok_i []) by auto.
  assert (Hall : Forall (fun r : list R => length r = od)
                   ((fun M => nth tok_i M []) <$> (M0 :: Mrest))).
  { rewrite <- EP. apply Forall_lookup_2. intros i r Hr.
    apply list_lookup_fmap_Some_1 in Hr as (M & -> & HM).
    assert (Hi : (i < length params)%nat) by (apply lookup_lt_Some in HM; lia).
    destruct (lookup_lt_is_Some_2 params i Hi) as [p Hp].
    rewrite <- (nth_lookup_Some _ _ [] _ HM), (Hrow i p Hp).
    eapply Forall_lookup_1 in Hshape as (Hb & Hw & Hwr); [|exact Hp].
    rewrite length_zip_with, vecmat_length by exact Hwr. lia. }
  rewrite fmap_cons in Hall. apply Forall_cons in Hall as [Hr0 Hrrest].
  assert (Htable : (Z.to_nat tok < length (concat (w <$> params)))%nat).
  { assert (Hc : length (concat (w <$> params)) = (length params * Z.to_nat ips)%nat).
    { clear -Hshape. induction Hshape as [|p ps (Hb & Hw & Hwr) _ IH]; [reflexivity|].
      rewrite fmap_cons. simpl concat. rewrite length_app, IH, Hw. simpl. lia. }
    rewrite Hc. nia. }
  assert (Htable_rows : Forall (fun r : list R => length r = od) (concat (w <$> params))).
  { clear -Hshape. induction Hshape as [|p ps (Hb & Hw & Hwr) _ IH]; [constructor|].
    rewrite fmap_cons. simpl concat. apply Forall_app. split; assumption. }
  assert (Hbias : Forall (fun v : list R => length v = od) (b <$> params)).
  { apply Forall_fmap. eapply Forall_impl; [exact Hshape|]. now intros p (Hb & _). }
  rewrite Eparams, fmap_cons in Hbias. apply Forall_cons in Hbias as [Hb0 Hbrest].
  apply list_eq_nth.
  - rewrite (fold_zip_length_gen _ _ _ od) by auto.
    rewrite length_zip_with, (fold_zip_length_gen _ _ _ od) by auto.
    destruct (lookup_lt_is_Some_2 _ _ Htable) as [r Hr].
    rewrite (nth_lookup_Some _ _ _ _ Hr).
    eapply Forall_lookup_1 in Htable_rows; [|exact Hr]. lia.
  - intros j Hj. rewrite (fold_zip_length_gen _ _ _ od) in Hj by auto.
    rewrite (fold_zip_plus_nth _ _ od j) by auto.
    destruct (lookup_lt_is_Some_2 _ _ Htable) as [r Hr].
    assert (Hrlen : length r = od) by (eapply Forall_lookup_1 in Htable_rows; eauto).
    rewrite (nth_zip_with_lt Rplus _ _ j 0 0 0);
      [|rewrite (nth_lookup_Some _ _ _ _ Hr); lia
       |rewrite (fold_zip_length_gen _ _ _ od); auto].
    rewrite (fold_zip_plus_nth _ _ od j) by auto.
    (* both sides as sums over all the shards *)
    transitivity (rsum ((fun v : list R => nth j v 0) <$>
                          ((fun M => nth tok_i M []) <$> (M0 :: Mrest)))).
    { rewrite !fmap_cons, rsum_cons. reflexivity. }
    rewrite <- EP.
    assert (Hrows_eq : (fun M : list (list R) => nth tok_i M []) <$> proj_out m params x
              = imap (fun i p => zip_with Rplus
                        (vecmat od (ProjectionShard.one_hot (tok - Z.of_nat i * ips) ips) (w p))
                        (b p)) params).
    { apply list_eq. intros i. rewrite list_lookup_fmap, list_lookup_imap.
      destruct (params !! i) as [p|] eqn:Hp.
      - rewrite (lookup_nth_lt _ i []) by (rewrite Hlen; now apply lookup_lt_Some in Hp).
        simpl. now rewrite (Hrow i p Hp).
      - apply lookup_ge_None in Hp. rewrite lookup_ge_None_2 by lia. reflexivity. }
    rewrite Hrows_eq, fmap_imap.
    rewrite (imap_ext _ (fun i p =>
               rsum (zip_with Rmult
                       (ProjectionShard.one_hot (tok - Z.of_nat (0 + i) * ips) ips)
                       ((fun r0 : list R => nth j r0 0) <$> w p))
               + nth j (b p) 0)).
    2:{ intros i p Hp. simpl.
        eapply Forall_lookup_1 in Hshape as (Hb & Hw & Hwr); [|exact Hp].
        rewrite (nth_zip_with_lt Rplus _ _ j 0 0 0)
          by (rewrite ?vecmat_length; auto; lia).
        rewrite vecmat_nth by (auto; lia). reflexivity. }
    rewrite rsum_imap_plus.
    assert (Hsel :
      imap (fun i p =>
              rsum (zip_with Rmult
                      (ProjectionShard.one_hot (tok - Z.of_nat (0 + i) * ips) ips)
                      ((fun r0 : list R => nth j r0 0) <$> w p))) params
      = imap (fun i col =>
                rsum (zip_with Rmult
                        (ProjectionShard.one_hot (tok - Z.of_nat (0 + i) * ips) ips) col))
             ((fun p => (fun r0 : list R => nth j r0 0) <$> w p) <$> params)).
    { rewrite imap_fmap. reflexivity. }
    rewrite Hsel. clear Hsel.
    rewrite onehot_shards; [|exact Hips|].
    2:{ apply Forall_fmap. eapply Forall_impl; [exact Hshape|].
        intros p (Hb & Hw & Hwr). simpl. now rewrite length_fmap. }
    rewrite length_fmap. case_decide; [|lia].
    replace (tok - Z.of_nat 0 * ips)%Z with tok by lia.
    change ((fun p => (fun r0 : list R => nth j r0 0) <$> w p) <$> params)
      with ((fmap (M := list) (fun r0 : list R => nth j r0 0) ∘ w) <$> params).
    rewrite (list_fmap_compose w (fmap (M := list) (fun r0 : list R => nth j r0 0))).
    rewrite nth_concat_fmap_col by exact Htable.
    f_equal. rewrite Eparams, fmap_cons, rsum_cons, <- list_fmap_compose.
    reflexivity.
Qed.

(** The claim as the specification states it fails when a bias is not zero:
    shard 1 does not own token 0, yet its partial output is its bias 10,
    and the forward sum is 16 while row 0 of the table is 5. *)
Lemma embedding_partial_output_is_not_zero :
  nth 0 (nth 0 (nth 1 (proj_out small_embedding small_embedding_params [0%Z]) []) []) 0
    <> 0 /\
  nth 0 (nth 0 (nth 0 (__call__ small_embedding small_embedding_params [0%Z]) []) []) 0
    <> nth 0 (nth 0 (concat (w <$> small_embedding_params)) []) 0.
Proof.
  split.
  - change (0 * 7 + 0 + 10 <> 0). lra.
  - change (1 * 5 + 0 + 1 + (0 * 7 + 0 + 10) <> 5). lra.
Qed.

(** C8 (amended).  A token outside the range a shard owns gives an all-zero
    one-hot row there, so that shard's partial output for the token is its
    bias vector; the forward sum of the partial outputs is, on every shard,
    the token's row of the stacked table plus the sum of all the shards'
    biases. *)
Theorem embedding_forward_sum (m : t) (params : list linear_params) (x : list Z)
    (s tok_i : nat) (tok : Z) :
  (0 < in_dim_per_shard m)%Z ->
  Forall (linear_shaped (Z.to_nat (in_dim_per_shard m)) (Z.to_nat (out_dim m))) params ->
  x !! tok_i = Some tok ->
  (0 <= tok < Z.of_nat (length params) * in_dim_per_shard m)%Z ->
  (s < length params)%nat ->
  (forall (i : nat) (p : linear_params),
      params !! i = Some p ->
      ~ (Z.of_nat i * in_dim_per_shard m <= tok
         < (Z.of_nat i + 1) * in_dim_per_shard m)%Z ->
      local_onehot m i x !! tok_i = Some (replicate (Z.to_nat (in_dim_per_shard m)) 0) /\
      proj_out m params x !! i ≫= (.!! tok_i) = Some (b p)) /\
  exists bias_sum : list R,
    Collective.total (b <$> params) = Some bias_sum /\
    __call__ m params x !! s ≫= (.!! tok_i)
    = Some (zip_with Rplus (nth (Z.to_nat tok) (concat (w <$> params)) []) bias_sum).
Proof.
  intros Hips Hshape Hx Htok Hs. split.
  - intros i p Hp Hout.
    assert (Hzero : ProjectionShard.one_hot (tok - Z.of_nat i * in_dim_per_shard m)
                      (in_dim_per_shard m)
                    = replicate (Z.to_nat (in_dim_per_shard m)) 0)
      by (apply one_hot_outside; lia).
    split.
    + rewrite local_onehot_one_hot, list_lookup_fmap, Hx. cbn. now rewrite Hzero.
    + rewrite (proj_out_row m params x i tok_i p tok Hp Hx), Hzero.
      f_equal. apply linear_zero_row.
      eapply Forall_lookup_1 in Hshape; eauto.
  - now apply embedding_sum_of_partial_outputs.
Qed.

Lemma embedding_forward_sum_witness :
  exists bias_sum : list R,
    Collective.total (b <$> small_embedding_params) = Some bias_sum /\
    __call__ small_embedding small_embedding_params [0%Z; 1%Z] !! 1%nat ≫= (.!! 0%nat)
    = Some (zip_with Rplus
              (nth (Z.to_nat 0) (concat (w <$> small_embedding_params)) []) bias_sum).
Proof.
  apply (embedding_forward_sum small_embedding small_embedding_params [0%Z; 1%Z]
           1 0 0%Z).
  - simpl. lia.
  - repeat constructor.
  - reflexivity.
  - simpl. lia.
  - simpl. lia.
Defined.

End Embedding.

(** ** RMSNorm and the norm factory *)

Section RMSNormProofs.
Import Norm.
Local Open Scope R_scope.

Lemma zip_fmap_pair {A B C : Type} (f : A -> B) (g : A -> C) (l : list A) :
  zip (f <$> l) (g <$> l) = (fun a => (f a, g a)) <$> l.
Proof.
  induction l as [|a l IH]; [reflexivity|].
  rewrite !fmap_cons. simpl. now rewrite IH.
Qed.

(** [pmean] of one vector per shard: every shard receives the vector of
    entry-wise means. *)
Lemma pmean_vectors (vs : list (list R)) (d : nat) :
  vs <> [] -> Forall (fun v => length v = d) vs ->
  exists mu : list R,
    Collective.pmean vs = (fun _ => mu) <$> vs /\ length mu = d /\
    forall j, (j < d)%nat ->
      nth j mu 0 = rsum ((fun v => nth j v 0) <$> vs) / INR (length vs).
Proof.
  intros Hne Hall. destruct (psum_vectors vs d Hne Hall) as (S & HS & HSlen & HSnth).
  exists (Rmult (/ INR (length vs)) <$> S). split; [|split].
  - unfold Collective.pmean. rewrite HS, <- list_fmap_compose. reflexivity.
  - now rewrite length_fmap.
  - intros j Hj. rewrite (nth_fmap_lt _ S j 0 0) by lia. rewrite HSnth by exact Hj.
    unfold Rdiv. lra.
Qed.

Lemma rsum_replicate (n : nat) (c : R) : rsum (replicate n c) = INR n * c.
Proof.
  induction n as [|n IH].
  - change (0 = INR 0 * c). simpl. lra.
  - cbn [replicate]. rewrite rsum_cons, IH, S_INR. lra.
Qed.

(** On a replicated parameter the mean is the parameter itself. *)
Lemma pmean_replicate (k : nat) (v : list R) :
  Collective.pmean (replicate (S k) v) = replicate (S k) v.
Proof.
  destruct (pmean_vectors (replicate (S k) v) (length v)) as (mu & Hmu & Hlen & Hnth).
  { discriminate. }
  { apply Forall_replicate. reflexivity. }
  rewrite Hmu, fmap_replicate. f_equal.
  apply list_eq_nth; [exact Hlen|]. intros j Hj. rewrite Hnth by lia.
  rewrite fmap_replicate, rsum_replicate, length_replicate.
  assert (Hk : INR (S k) <> 0) by (apply not_0_INR; lia).
  field. exact Hk.
Qed.




(** The factory accepts the six names of [norm_kinds]. *)
Lemma getnorm_accepts (s : string) :
  In s norm_kinds -> exists m, getnorm s = Ok m.
Proof.
  unfold norm_kinds. simpl.
  intros [<-|[<-|[<-|[<-|[<-|[<-|[]]]]]]]; eexists; reflexivity.
Qed.

Lemma getnorm_rejects (s : string) :
  ~ In s norm_kinds -> getnorm s = Raise (Exception "Not implemented").
Proof.
  unfold norm_kinds, getnorm. simpl. intros Hnot.
  repeat match goal with
         | |- context [String.eqb s ?k] =>
             destruct (String.eqb_spec s k) as [->|_]; [exfalso; apply Hnot; tauto|]
         end.
  reflexivity.
Qed.

(** The name [layernorm-no-bias] of the specification's variant set is not
    accepted: the factory spells it [layernorm-nobias]. *)
Lemma getnorm_rejects_layernorm_no_bias :
  In "layernorm-no-bias"%string spec_norm_kinds /\
  getnorm "layernorm-no-bias" = Raise (Exception "Not implemented").
Proof. split; [simpl; tauto|reflexivity]. Qed.

(** C7 (amended).  The factory accepts exactly the six names [layernorm],
    [layernorm-nobias], [rmsnorm], [scalenorm], [rmsnorm-bias] and
    [scalenorm-bias]; any other name raises [Exception("Not implemented")]. *)
Theorem getnorm_accepted_names (s : string) :
  (In s norm_kinds <-> exists m, getnorm s = Ok m) /\
  (~ In s norm_kinds <-> getnorm s = Raise (Exception "Not implemented")).
Proof.
  destruct (in_dec string_dec s norm_kinds) as [Hin|Hout].
  - destruct (getnorm_accepts s Hin) as [m Hm]. split; split; intros; eauto; try tauto.
    congruence.
  - pose proof (getnorm_rejects s Hout) as Hr. split; split; intros; eauto; try tauto.
    destruct H as [m Hm]. congruence.
Qed.

End RMSNormProofs.

(** ** Construction-time checks *)

Section Construction.
Context {O : Type}.
Implicit Types c : config O.
Local Open Scope Z_scope.

Lemma mapM_const_raise {A B : Type} (e : exn) (l : list A) :
  l <> [] -> mapM (fun _ => @Raise B e) l = Raise e.
Proof. destruct l; [congruence|reflexivity]. Qed.

Lemma mapM_const_ok {A B : Type} (b : B) (l : list A) :
  mapM (M := result) (fun _ => Ok b) l = Ok (replicate (length l) b).
Proof.
  induction l as [|a l IH]; [reflexivity|].
  simpl. simpl in IH. rewrite IH. reflexivity.
Qed.

Lemma py_range_nonempty (n : Z) : 0 < n -> py_range 0 n <> [].
Proof.
  intros Hn. unfold py_range. rewrite seqZ_cons by lia. discriminate.
Qed.

Lemma py_mod_ok (a b : Z) : b <> 0 -> py_mod a b = Ok (a mod b).
Proof. intros Hb. unfold py_mod. destruct (Z.eqb_spec b 0); [lia|reflexivity]. Qed.

Lemma py_mod_zero (a : Z) : py_mod a 0 = Raise ZeroDivisionError.
Proof. reflexivity. Qed.

Lemma py_floordiv_ok (a b : Z) : b <> 0 -> py_floordiv a b = Ok (a / b).
Proof. intros Hb. unfold py_floordiv. destruct (Z.eqb_spec b 0); [lia|reflexivity]. Qed.

Lemma divides_trans_mod (d h s : Z) :
  h <> 0 -> s <> 0 -> d mod h = 0 -> h mod s = 0 -> d mod s = 0.
Proof.
  intros Hh Hs Hd Hhs.
  apply Z.mod_divide in Hd; [|exact Hh]. apply Z.mod_divide in Hhs; [|exact Hs].
  apply Z.mod_divide; [exact Hs|]. eapply Z.divide_trans; eauto.
Qed.

(** C4.  The invariants are checked while the model is built, and not all
    by every construction: [n_vocab % shards] is asserted by the embedding,
    for every layer count; [d_model % n_heads] and [n_heads % shards] are
    asserted by the constructor of a transformer block, so they are reached
    only when there is at least one layer; [d_model % shards] has no
    assertion of its own and follows from those two.  Hence a configuration
    that violates an invariant and has at least one layer, or violates the
    vocabulary invariant, does not build: the constructor raises, and so do
    the loss functions, which build the model before they compute anything.
    With positive shard and head counts and a supported norm name the
    exception is the [AssertionError]. *)
Theorem construction_checks_invariants c :
  ~ invariants c ->
  0 < layers c \/ py_mod (n_vocab c) (cores_per_replica c) <> Ok 0 ->
  (exists e, CausalTransformerShard.__init__ c = Raise e /\
             forall ps x y,
               CausalTransformerShard.eval_loss c ps x y = Raise e /\
               CausalTransformerShard.train_loss c ps x y = Raise e) /\
  (0 < cores_per_replica c -> 0 < n_heads c ->
   In (config_norm c) Norm.norm_kinds ->
   CausalTransformerShard.__init__ c = Raise AssertionError).
Proof.
  intros Hviol Hreached.
  assert (Hcases :
    (exists e, CausalTransformerShard.__init__ c = Raise e) /\
    (0 < cores_per_replica c -> 0 < n_heads c ->
     In (config_norm c) Norm.norm_kinds ->
     CausalTransformerShard.__init__ c = Raise AssertionError)).
  { unfold CausalTransformerShard.__init__.
    destruct (Z.eq_dec (cores_per_replica c) 0) as [Hs0|Hs].
    { split; [|lia]. unfold py_floordiv. rewrite Hs0. simpl. eauto. }
    rewrite (py_floordiv_ok _ _ Hs). cbn [mbind result_bind].
    unfold EmbeddingShard.__init__. rewrite (py_mod_ok _ _ Hs). cbn [mbind result_bind].
    destruct (Z.eqb_spec (n_vocab c mod cores_per_replica c) 0) as [Hv|Hv];
      cbn [py_assert mbind result_bind]; [|split; eauto].
    assert (Hlayers : 0 < layers c).
    { destruct Hreached as [Hl|Hvocab]; [exact Hl|].
      rewrite (py_mod_ok _ _ Hs), Hv in Hvocab. congruence. }
    rewrite (py_floordiv_ok _ _ Hs). cbn [mbind result_bind].
    destruct (Z.eqb_spec (layers c) 0) as [Hl0|Hl]; cbn [mbind result_bind]; [lia|].
    assert (Hne : py_range 0 (layers c) <> []) by (apply py_range_nonempty; lia).
    unfold TransformerLayerShard.__init__.
    destruct (Norm.getnorm (config_norm c)) as [nm|e] eqn:Hnorm; cbn [mbind result_bind].
    2:{ rewrite mapM_const_raise by exact Hne. cbn [mbind result_bind].
        split; [eauto|]. intros _ _ Hin.
        destruct (getnorm_accepts _ Hin) as [m' Hm']. congruence. }
    destruct (Z.eq_dec (n_heads c) 0) as [Hh0|Hh].
    { rewrite Hh0, py_mod_zero. cbn [mbind result_bind].
      rewrite mapM_const_raise by exact Hne. cbn [mbind result_bind]. split; [eauto|lia]. }
    rewrite (py_mod_ok _ _ Hh). cbn [mbind result_bind].
    destruct (Z.eqb_spec (d_model c mod n_heads c) 0) as [Hd|Hd];
      cbn [py_assert mbind result_bind].
    2:{ rewrite mapM_const_raise by exact Hne. cbn [mbind result_bind]. split; eauto. }
    rewrite (py_mod_ok _ _ Hs). cbn [mbind result_bind].
    destruct (Z.eqb_spec (n_heads c mod cores_per_replica c) 0) as [Hhs|Hhs];
      cbn [py_assert mbind result_bind].
    2:{ rewrite mapM_const_raise by exact Hne. cbn [mbind result_bind]. split; eauto. }
    exfalso. apply Hviol. unfold invariants.
    rewrite !py_mod_ok by assumption. rewrite Hd, Hhs, Hv.
    rewrite (divides_trans_mod _ _ _ Hh Hs Hd Hhs). auto. }
  destruct Hcases as [[e He] Hassert]. split; [|exact Hassert].
  exists e. split; [exact He|]. intros ps x y.
  unfold CausalTransformerShard.eval_loss, CausalTransformerShard.train_loss.
  rewrite He. split; reflexivity.
Qed.

(** Conversely, a configuration that satisfies the invariants builds. *)
Lemma construction_succeeds c :
  invariants c -> layers c <> 0 -> In (config_norm c) Norm.norm_kinds ->
  exists m, CausalTransformerShard.__init__ c = Ok m.
Proof.
  intros (Hd & Hhs & Hv & Hds) Hl Hin.
  destruct (getnorm_accepts _ Hin) as [nm Hnm].
  assert (Hs : cores_per_replica c <> 0).
  { intros E. unfold py_mod in Hv. rewrite E in Hv. discriminate. }
  assert (Hh : n_heads c <> 0).
  { intros E. unfold py_mod in Hd. rewrite E in Hd. discriminate. }
  rewrite py_mod_ok in Hd, Hhs, Hv by assumption.
  injection Hd as Hd. injection Hhs as Hhs. injection Hv as Hv.
  unfold CausalTransformerShard.__init__, EmbeddingShard.__init__,
    TransformerLayerShard.__init__, ProjectionShard.__init__.
  rewrite !py_floordiv_ok, !py_mod_ok by assumption. rewrite Hnm, Hd, Hhs, Hv.
  cbn [mbind result_bind py_assert Z.eqb].
  destruct (Z.eqb_spec (layers c) 0); [contradiction|].
  cbn [mbind result_bind]. rewrite mapM_const_ok. cbn [mbind result_bind].
  eexists. reflexivity.
Qed.
End Construction.

(** The claim as the specification states it fails for a negative layer
    count: 2 heads do not divide a model dimension of 5, and the model
    builds, with no transformer block. *)
Lemma construction_without_layers_skips_head_checks :
  ~ invariants layerless_config /\
  exists m : CausalTransformerShard.t,
    CausalTransformerShard.__init__ layerless_config = Ok m /\
    CausalTransformerShard.transformer_layers m = [].
Proof.
  split.
  - intros [Hd _]. discriminate Hd.
  - eexists. split; reflexivity.
Qed.

Lemma construction_checks_invariants_witness :
  CausalTransformerShard.__init__ bad_config = Raise AssertionError.
Proof.
  refine (proj2 (construction_checks_invariants bad_config _ _) _ _ _).
  - intros [Hd _]. discriminate Hd.
  - left. simpl. lia.
  - simpl. lia.
  - simpl. lia.
  - simpl. tauto.
Defined.


(** ** Collectives and the residual stream *)

Section CollectivesAndStream.
Local Open Scope R_scope.
Lemma fold_left_Rplus_rsum (rest : list R) (x : R) :
  fold_left Rplus rest x = x + rsum rest.
Proof.
  revert x. induction rest as [|y rest IH]; intros x.
  - rewrite rsum_nil. simpl. lra.
  - simpl fold_left. rewrite IH, rsum_cons. lra.
Qed.

(** C2.  On the forward pass [g_psum] gives every shard the sum of the
    shards' inputs (for reals: [length x] copies of [rsum x]), a
    differentiation computes the same forward value, and the backward rule
    hands the upstream cotangent back unchanged. *)
Theorem g_psum_forward_sum_backward_identity :
  (forall (T : Type) (HS : Summable T) (x : list T),
      primal g_psum x
      = from_option (fun s => replicate (length x) s) [] (Collective.total x) /\
      fst (vjp g_psum x) = primal g_psum x /\
      forall g : list T, snd (vjp g_psum x) g = g) /\
  (forall x : list R, primal g_psum x = replicate (length x) (rsum x)).
Proof.
  split.
  - intros T HS x. split; [|split].
    + cbn [primal g_psum]. unfold g_psum_primal, Collective.psum.
      destruct (Collective.total x) as [s|]; [|reflexivity].
      cbn [from_option]. symmetry. apply replicate_as_Forall. split.
      * now rewrite length_fmap.
      * apply Forall_fmap, Forall_forall. intros; reflexivity.
    + reflexivity.
    + intros g. reflexivity.
  - intros [|x0 rest]; [reflexivity|].
    cbn [primal g_psum]. unfold g_psum_primal, Collective.psum. cbn [Collective.total].
    change (@tadd R _) with Rplus. rewrite fold_left_Rplus_rsum, rsum_cons.
    symmetry. apply replicate_as_Forall. split.
    + now rewrite length_fmap.
    + apply Forall_fmap, Forall_forall. intros; reflexivity.
Qed.



(** C10.  [eval] feeds the loss with the output of the layer loop, and the
    loop applies every layer through an additive residual connection: the
    stream after one more layer [l] is [x' + l(x', attn_bias)], entry by
    entry, where [x'] is the stream before it. *)
Theorem eval_layers_are_residual (m : CausalTransformerShard.t)
    (ps : CausalTransformerShard.model_params) (context target : list Z) (z_loss : bool) :
  let attn_bias :=
    (fun e => Some (RelativePositionEmbs.call e (length context) (length context) 32))
      <$> CausalTransformerShard.rel_embedding ps in
  let x0 := EmbeddingShard.__call__ (CausalTransformerShard.embed m)
              (CausalTransformerShard.embed_p ps) context in
  CausalTransformerShard.eval m ps context target z_loss
  = ProjectionShard.loss (CausalTransformerShard.proj m) (CausalTransformerShard.proj_p ps)
      (CausalTransformerShard.run_layers
         (zip (CausalTransformerShard.transformer_layers m) (CausalTransformerShard.layers_p ps))
         attn_bias x0)
      target z_loss /\
  (forall x, CausalTransformerShard.run_layers [] attn_bias x = x) /\
  (forall ls l p x,
      CausalTransformerShard.run_layers (ls ++ [(l, p)]) attn_bias x
      = let x' := CausalTransformerShard.run_layers ls attn_bias x in
        zip_with (zip_with (zip_with Rplus)) x' (TransformerLayerShard.__call__ l p x' attn_bias)).
Proof.
  intros attn_bias x0. split; [reflexivity|]. split; [reflexivity|].
  intros ls l p x. unfold CausalTransformerShard.run_layers.
  rewrite fold_left_app. reflexivity.
Qed.

End CollectivesAndStream.

(** ** Training and evaluation steps *)

Lemma scan_fst {C X Y : Type} (f : C -> X -> C * Y) (init : C) (xs : list X) :
  fst (scan f init xs) = fold_left (fun c x => fst (f c x)) xs init.
Proof.
  revert init. induction xs as [|x xs IH]; intros init; [reflexivity|].
  simpl. destruct (f init x) as [c y] eqn:Ef. specialize (IH c).
  destruct (scan f c xs) as [c' ys]. simpl in *. exact IH.
Qed.

(** When the output of a step does not depend on the carry, the outputs of
    the scan are the outputs of the steps. *)
Lemma scan_snd {C X Y : Type} (f : C -> X -> C * Y) (g : X -> Y)
    (init : C) (xs : list X) :
  (forall c x, snd (f c x) = g x) -> snd (scan f init xs) = g <$> xs.
Proof.
  intros Hg. revert init. induction xs as [|x xs IH]; intros init; [reflexivity|].
  simpl. pose proof (Hg init x) as Hx. destruct (f init x) as [c y]. specialize (IH c).
  destruct (scan f c xs) as [c' ys]. simpl in *. now rewrite Hx, IH.
Qed.

Lemma fold_left_pointwise {A B : Type} (f g : A -> B -> A) (l : list B) (a : A) :
  (forall x y, f x y = g x y) -> fold_left f l a = fold_left g l a.
Proof.
  intros Hfg. revert a. induction l as [|y l IH]; intros a; [reflexivity|].
  simpl. rewrite Hfg. apply IH.
Qed.

Section TreeDtypes.
Context {num : Type} `{Engine num}.
Implicit Types t : gmap string (gmap string (array num)).

Lemma tree_Forall_map (P Q : array num -> Prop) (f : array num -> array num) t :
  (forall a, P a -> Q (f a)) -> tree_Forall P t -> tree_Forall Q (tree_map f t).
Proof.
  intros Hf Ht k m n a Hk Hn. unfold tree_map in Hk.
  apply lookup_fmap_Some in Hk as (m' & <- & Hk).
  apply lookup_fmap_Some in Hn as (a' & <- & Hn).
  eauto.
Qed.

Lemma tree_Forall_multimap (P Q S : array num -> Prop)
    (f : array num -> array num -> array num) t1 t2 :
  (forall a b, P a -> Q b -> S (f a b)) ->
  tree_Forall P t1 -> tree_Forall Q t2 -> tree_Forall S (tree_multimap f t1 t2).
Proof.
  intros Hf H1 H2 k m n a Hk Hn. unfold tree_multimap in Hk.
  apply map_lookup_zip_with_Some in Hk as (m1 & m2 & -> & Hk1 & Hk2).
  apply map_lookup_zip_with_Some in Hn as (a1 & a2 & -> & Hn1 & Hn2).
  eauto.
Qed.

Lemma array_add_bf16 (a b : array num) :
  dt a = bfloat16 -> dt b = bfloat16 -> dt (array_add a b) = bfloat16.
Proof. intros Ha Hb. unfold array_add. simpl. rewrite Ha, Hb. reflexivity. Qed.

Lemma to_bf16_float_tree t :
  tree_Forall (fun a => dt a = float32 \/ dt a = bfloat16) t ->
  tree_Forall (fun a => dt a = bfloat16) (to_bf16 t).
Proof.
  apply tree_Forall_map. intros a [Ha|Ha]; rewrite Ha; [reflexivity|exact Ha].
Qed.

Lemma mean_of_bf16 (n : nat) first rest :
  tree_Forall (fun a => dt a = bfloat16) first ->
  Forall (tree_Forall (fun a => dt a = bfloat16)) rest ->
  tree_Forall (fun a => dt a = bfloat16) (mean_of n first rest).
Proof.
  intros Hf Hr. unfold mean_of.
  apply tree_Forall_map with (P := fun a => dt a = bfloat16).
  - intros a Ha. exact Ha.
  - revert first Hf. induction Hr as [|t rest Ht _ IH]; intros first Hf; [exact Hf|].
    simpl. apply IH.
    apply tree_Forall_multimap
      with (P := fun a => dt a = bfloat16) (Q := fun a => dt a = bfloat16);
      [|exact Hf|exact Ht].
    intros a b Ha Hb. now apply array_add_bf16.
Qed.

End TreeDtypes.

Section TrainStep.
Context {num : Type} `{Engine num}.
Import CausalTransformer.
Variable loss_apply :
  bool -> gmap string (gmap string (array num)) -> list Z -> list Z -> array num.
Variable jax_grad :
  (gmap string (gmap string (array num)) -> list Z -> list Z -> array num) ->
  gmap string (gmap string (array num)) -> list Z -> list Z ->
  gmap string (gmap string (array num)).
Variable optimizer : GradientTransformation num.

Lemma accumulate_fst (state : TrainingState num) (mbs : list (list Z * list Z)) :
  fst (accumulate loss_apply jax_grad state mbs)
  = accumulated loss_apply jax_grad state mbs.
Proof.
  unfold accumulate, accumulated. rewrite scan_fst.
  apply fold_left_pointwise. intros g [ctx tgt]. reflexivity.
Qed.

Lemma accumulate_snd (state : TrainingState num) (mbs : list (list Z * list Z)) :
  snd (accumulate loss_apply jax_grad state mbs)
  = (fun b => loss_apply true (to_bf16 (params state)) b.1 b.2) <$> mbs.
Proof.
  unfold accumulate. apply scan_snd. intros c [ctx tgt]. reflexivity.
Qed.

Lemma accumulated_bf16 (state : TrainingState num) (mbs : list (list Z * list Z)) :
  grad_keeps_bf16 jax_grad ->
  tree_Forall (fun a => dt a = float32 \/ dt a = bfloat16) (params state) ->
  tree_Forall (fun a => dt a = bfloat16) (accumulated loss_apply jax_grad state mbs).
Proof.
  intros Hg Hp. unfold accumulated.
  assert (H0 : tree_Forall (fun a => dt a = bfloat16)
                 (tree_map (fun x => astype bfloat16 (zeros_like x)) (params state))).
  { apply tree_Forall_map with (P := fun a => dt a = float32 \/ dt a = bfloat16);
      [|exact Hp]. intros a _. reflexivity. }
  revert H0.
  generalize (tree_map (fun x => astype bfloat16 (zeros_like x)) (params state)).
  induction mbs as [|b mbs IH]; intros g0 H0; [exact H0|].
  simpl. apply IH.
  apply tree_Forall_multimap
    with (P := fun a => dt a = bfloat16) (Q := fun a => dt a = bfloat16).
  - intros a b0 Ha Hb. now apply array_add_bf16.
  - exact H0.
  - apply Hg. now apply to_bf16_float_tree.
Qed.


(** The method [train] replaces [self.state] by a state whose step counter
    is one higher. *)
Lemma train_method_steps (self : t) (s : sample) (loss : num) (self' : t) :
  train_method loss_apply jax_grad optimizer s self = Some (loss, self') ->
  step (state self') = (step (state self) + 1)%Z.
Proof.
  unfold train_method, train. cbv zeta.
  unfold mbind, method_bind, get_state, xmap_result, set_state, mret, method_ret.
  destruct (tree_pmean _) as [g|]; [|discriminate].
  cbn [mbind option_bind].
  destruct (update optimizer g _ _) as [u o]. cbn.
  intros [= _ <-]. reflexivity.
Qed.

(** An evaluation returns a value and leaves the attributes as they are. *)
Lemma eval_method_reads (self : t) (obs target : list (list Z)) :
  eval_method loss_apply obs target self
  = Some (array_mean (concat (data <$> zip_with (eval loss_apply (state self)) obs target)),
          self).
Proof. reflexivity. Qed.

Lemma run_cons (c : invocation) (cs : list invocation) (self : t) :
  run loss_apply jax_grad optimizer (c :: cs) self
  = match invoke loss_apply jax_grad optimizer c self with
    | Some (l, self1) =>
        match run loss_apply jax_grad optimizer cs self1 with
        | Some (ls, self2) => Some (l :: ls, self2)
        | None => None
        end
    | None => None
    end.
Proof.
  cbn [run]. unfold mbind, method_bind, mret, method_ret.
  destruct (invoke _ _ _ c self) as [[l self1]|]; [|reflexivity].
  destruct (run _ _ _ cs self1) as [[ls self2]|]; reflexivity.
Qed.


End TrainStep.


(** The toy gradient keeps the dtypes of the tree it is taken at. *)
Lemma toy_grad_keeps_bf16 : grad_keeps_bf16 toy_grad.
Proof.
  intros f p ctx tgt Hp. unfold toy_grad.
  apply tree_Forall_map with (P := fun a => dt a = bfloat16); [|exact Hp].
  intros a Ha. exact Ha.
Qed.

Lemma toy_params_float :
  tree_Forall (fun a => dt a = float32 \/ dt a = bfloat16) (params toy_state).
Proof.
  intros k m n a Hk Hn. cbn [params toy_state] in Hk. unfold toy_params in Hk.
  apply lookup_singleton_Some in Hk as [_ <-].
  apply lookup_singleton_Some in Hn as [_ <-]. left. reflexivity.
Qed.



(** * Further properties *)

(** ** Precision casts and the training state *)

Section Casts.
Context {num : Type} `{Engine num}.
Implicit Types t : gmap string (gmap string (array num)).

Lemma tree_map_lookup (f : array num -> array num) t (k n : string) :
  (tree_map f t !! k ≫= (.!! n)) = f <$> (t !! k ≫= (.!! n)).
Proof.
  unfold tree_map. rewrite lookup_fmap.
  destruct (t !! k) as [m|]; [|reflexivity]. cbn. apply lookup_fmap.
Qed.

Lemma tree_map_idempotent (f : array num -> array num) t :
  (forall a, f (f a) = f a) -> tree_map f (tree_map f t) = tree_map f t.
Proof.
  intros Hf. unfold tree_map. rewrite <- map_fmap_compose.
  apply map_fmap_ext. intros k m _. cbn.
  rewrite <- map_fmap_compose. apply map_fmap_ext. intros n a _. apply Hf.
Qed.

(** X1.  [to_bf16] leaves no float32 leaf, casting twice is casting once,
    and a leaf of any other dtype comes out as it went in, under the same
    module and parameter names. *)
Theorem to_bf16_casts_float32_leaves t :
  tree_Forall (fun a => dt a <> float32) (to_bf16 t) /\
  to_bf16 (to_bf16 t) = to_bf16 t /\
  (forall (k n : string) (a : array num),
      t !! k ≫= (.!! n) = Some a ->
      to_bf16 t !! k ≫= (.!! n)
      = Some (match dt a with
              | float32 => {| dt := bfloat16; data := nround bfloat16 <$> data a |}
              | _ => a
              end)).
Proof.
  split; [|split].
  - unfold to_bf16.
    apply tree_Forall_map with (P := fun _ => True); [|intros k m n a _ _; exact I].
    intros a _. destruct (dt a) eqn:E; cbn; congruence.
  - apply tree_map_idempotent. intros a. destruct (dt a) eqn:E; cbn; rewrite ?E; reflexivity.
  - intros k n a Ha. unfold to_bf16. rewrite tree_map_lookup, Ha. cbn.
    destruct (dt a); reflexivity.
Qed.

(** X2.  [to_f32] leaves no bfloat16 leaf, casting twice is casting once,
    and a leaf of any other dtype comes out as it went in. *)
Theorem to_f32_casts_bfloat16_leaves t :
  tree_Forall (fun a => dt a <> bfloat16) (to_f32 t) /\
  to_f32 (to_f32 t) = to_f32 t /\
  (forall (k n : string) (a : array num),
      t !! k ≫= (.!! n) = Some a ->
      to_f32 t !! k ≫= (.!! n)
      = Some (match dt a with
              | bfloat16 => {| dt := float32; data := nround float32 <$> data a |}
              | _ => a
              end)).
Proof.
  split; [|split].
  - unfold to_f32.
    apply tree_Forall_map with (P := fun _ => True); [|intros k m n a _ _; exact I].
    intros a _. destruct (dt a) eqn:E; cbn; congruence.
  - apply tree_map_idempotent. intros a. destruct (dt a) eqn:E; cbn; rewrite ?E; reflexivity.
  - intros k n a Ha. unfold to_f32. rewrite tree_map_lookup, Ha. cbn.
    destruct (dt a); reflexivity.
Qed.

End Casts.

Section TrainInvariants.
Context {num : Type} `{Engine num}.
Import CausalTransformer.
Variable loss_apply :
  bool -> gmap string (gmap string (array num)) -> list Z -> list Z -> array num.
Variable jax_grad :
  (gmap string (gmap string (array num)) -> list Z -> list Z -> array num) ->
  gmap string (gmap string (array num)) -> list Z -> list Z ->
  gmap string (gmap string (array num)).
Variable optimizer : GradientTransformation num.

Section LayoutLemmas.
Implicit Types a b c t : gmap string (gmap string (array num)).

Lemma tree_multimap_lookup (f : array num -> array num -> array num) a b (k n : string) :
  tree_multimap f a b !! k ≫= (.!! n)
  = match a !! k ≫= (.!! n), b !! k ≫= (.!! n) with
    | Some x, Some y => Some (f x y)
    | _, _ => None
    end.
Proof.
  unfold tree_multimap. rewrite map_lookup_zip_with.
  destruct (a !! k) as [ma|]; [|reflexivity].
  destruct (b !! k) as [mb|]; cbn.
  - rewrite map_lookup_zip_with. destruct (ma !! n), (mb !! n); reflexivity.
  - destruct (ma !! n); reflexivity.
Qed.

Lemma same_layout_refl t : same_layout t t.
Proof. intros k n. destruct (t !! k ≫= (.!! n)); auto. Qed.

Lemma same_layout_sym a b : same_layout a b -> same_layout b a.
Proof.
  intros Hab k n. specialize (Hab k n).
  destruct (a !! k ≫= (.!! n)), (b !! k ≫= (.!! n)); auto.
Qed.

Lemma same_layout_trans a b c : same_layout a b -> same_layout b c -> same_layout a c.
Proof.
  intros Hab Hbc k n. specialize (Hab k n). specialize (Hbc k n).
  destruct (a !! k ≫= (.!! n)), (b !! k ≫= (.!! n)), (c !! k ≫= (.!! n));
    try contradiction; auto; congruence.
Qed.

Lemma same_layout_map (f : array num -> array num) t :
  (forall x, length (data (f x)) = length (data x)) -> same_layout (tree_map f t) t.
Proof.
  intros Hf k n. rewrite tree_map_lookup.
  destruct (t !! k ≫= (.!! n)); cbn; auto.
Qed.

Lemma same_layout_multimap (f : array num -> array num -> array num) a b c :
  (forall x y, length (data x) = length (data y) ->
               length (data (f x y)) = length (data x)) ->
  same_layout a c -> same_layout b c -> same_layout (tree_multimap f a b) c.
Proof.
  intros Hf Hac Hbc k n. specialize (Hac k n). specialize (Hbc k n).
  rewrite tree_multimap_lookup.
  destruct (a !! k ≫= (.!! n)) as [x|], (b !! k ≫= (.!! n)) as [y|],
    (c !! k ≫= (.!! n)) as [z|]; try contradiction; auto.
  rewrite Hf; congruence.
Qed.

Lemma array_add_length (x y : array num) :
  length (data x) = length (data y) -> length (data (array_add x y)) = length (data x).
Proof. intros Hxy. cbn. rewrite length_zip_with. lia. Qed.

Lemma to_bf16_layout t : same_layout (to_bf16 t) t.
Proof.
  apply same_layout_map. intros x. destruct (dt x); cbn; rewrite ?length_fmap; reflexivity.
Qed.

Lemma to_f32_layout t : same_layout (to_f32 t) t.
Proof.
  apply same_layout_map. intros x. destruct (dt x); cbn; rewrite ?length_fmap; reflexivity.
Qed.

Lemma to_f32_leaf_dtype t (k n : string) (u : array num) :
  to_f32 t !! k ≫= (.!! n) = Some u -> dt u <> bfloat16.
Proof.
  unfold to_f32. rewrite tree_map_lookup.
  destruct (t !! k ≫= (.!! n)) as [u0|]; [|discriminate].
  intros [= <-]. destruct (dt u0) eqn:E; cbn; congruence.
Qed.

(** The gradient accumulated over the micro-batches of one replica is laid
    out as the parameters. *)
Lemma accumulate_layout (state : TrainingState num) (mbs : list (list Z * list Z)) :
  grad_keeps_layout jax_grad ->
  same_layout (accumulate loss_apply jax_grad state mbs).1 (params state).
Proof.
  intros Hgrad. rewrite accumulate_fst. unfold accumulated.
  assert (Hfold : forall g0 : gmap string (gmap string (array num)),
             same_layout g0 (params state) ->
             same_layout
               (fold_left
                  (fun g1 (mb : list Z * list Z) =>
                     tree_multimap array_add g1
                       (jax_grad (loss_apply true) (to_bf16 (params state)) mb.1 mb.2))
                  mbs g0)
               (params state)).
  { induction mbs as [|mb mbs IH]; intros g0 Hg0; [exact Hg0|].
    cbn [fold_left]. apply IH.
    apply same_layout_multimap; [apply array_add_length|exact Hg0|].
    eapply same_layout_trans; [apply Hgrad|apply to_bf16_layout]. }
  apply Hfold. apply same_layout_map. intros x. cbn. now rewrite !length_fmap.
Qed.

(** So is their mean over the replicas. *)
Lemma tree_pmean_layout (ts : list (gmap string (gmap string (array num)))) p g :
  Forall (fun t => same_layout t p) ts ->
  tree_pmean ts = Some g -> same_layout g p.
Proof.
  intros Hts. destruct Hts as [|t0 rest Ht0 Hrest]; [discriminate|].
  cbn [tree_pmean]. intros [= <-].
  eapply same_layout_trans.
  { apply same_layout_map. intros x. cbn. now rewrite length_fmap. }
  revert t0 Ht0. induction Hrest as [|t1 rest Ht1 _ IH]; intros t0 Ht0; [exact Ht0|].
  cbn [fold_left]. apply IH.
  apply same_layout_multimap; [apply array_add_length|exact Ht0|exact Ht1].
Qed.

End LayoutLemmas.

(** What [train] returns on a batch axis that is not empty, with the
    gradient handed to the optimizer left abstract. *)
Lemma train_result (state : TrainingState num)
    (first : list (list Z * list Z)) (rest : list (list (list Z * list Z))) :
  exists grad : gmap string (gmap string (array num)),
    train loss_apply jax_grad optimizer state (first :: rest)
    = Some (fmap (M := list) (fmap (M := list) to_f32_leaf)
              (snd <$> (accumulate loss_apply jax_grad state <$> first :: rest)),
            {| params := apply_updates (params state)
                           (to_f32 (update optimizer grad (opt_state state)
                                      (params state)).1);
               step := step state + 1;
               opt_state := (update optimizer grad (opt_state state)
                               (params state)).2 |}).
Proof.
  unfold train. cbv zeta. rewrite !fmap_cons. unfold tree_pmean at 1.
  cbn [mbind option_bind].
  match goal with
  | |- context [update optimizer ?g (opt_state state) (params state)] => exists g
  end.
  destruct (update optimizer _ (opt_state state) (params state)) as [u o].
  reflexivity.
Qed.


Lemma to_f32_leaf_not_bf16 (a : array num) : dt (to_f32_leaf a) <> bfloat16.
Proof. unfold to_f32_leaf. destruct (dt a) eqn:E; cbn; congruence. Qed.

(** X4.  The losses a training step returns have the shape of the batch:
    one list per data-parallel replica, one loss per micro-batch of that
    replica, in order; each is the forward loss at the reduced-precision
    parameters, and none of them is left in bfloat16. *)
Theorem train_losses_follow_the_batch (state : TrainingState num)
    (first : list (list Z * list Z)) (rest : list (list (list Z * list Z))) :
  exists (losses : list (list (array num))) (state' : TrainingState num),
    train loss_apply jax_grad optimizer state (first :: rest) = Some (losses, state') /\
    length losses = length (first :: rest) /\
    (forall (r i : nat) (mbs : list (list Z * list Z)) (ctx tgt : list Z),
        (first :: rest) !! r = Some mbs -> mbs !! i = Some (ctx, tgt) ->
        losses !! r ≫= (.!! i)
        = Some (to_f32_leaf (loss_apply true (to_bf16 (params state)) ctx tgt))) /\
    Forall (Forall (fun a => dt a <> bfloat16)) losses.
Proof.
  destruct (train_result state first rest) as [grad Hrun].
  eexists _, _. split; [exact Hrun|]. split; [|split].
  - now rewrite !length_fmap.
  - intros r i mbs ctx tgt Hr Hi.
    rewrite !list_lookup_fmap, Hr. cbn.
    rewrite accumulate_snd, !list_lookup_fmap, Hi. reflexivity.
  - apply Forall_fmap, Forall_fmap, Forall_fmap, Forall_forall. intros mbs _. cbn.
    apply Forall_fmap, Forall_forall. intros a _. apply to_f32_leaf_not_bf16.
Qed.

End TrainInvariants.

Lemma toy_grad_layout : grad_keeps_layout toy_grad.
Proof.
  intros f p ctx tgt. unfold toy_grad. apply same_layout_map.
  intros x. cbn. now rewrite length_fmap.
Qed.

Lemma remember_gradient_layout : update_keeps_layout remember_gradient.
Proof. intros g s p. apply same_layout_refl. Qed.


(** ** Relative position bias *)

Section RelativePositionBias.
Import RelativePositionEmbs.
Local Open Scope Z_scope.

Lemma bucket_range (d : Z) : 0 <= bucket d <= 31.
Proof.
  rewrite bucket_unfold. cbv zeta.
  destruct (Z.ltb_spec (Z.max (wrap32 (- d)) 0) 16) as [Hs|Hs]; [lia|].
  pose proof (astype_int32_nonneg (log_term (Z.max (wrap32 (- d)) 0))
                (proj1 (log_term_mono _ _ (conj Hs (Z.le_refl _))))). lia.
Qed.

(** X5.  A key at or after the query (an offset [d >= 0] between int32
    positions) always falls in bucket 0. *)
Theorem bucket_of_future_offsets_is_zero (d : Z) :
  0 <= d < 2 ^ 31 -> bucket d = 0.
Proof.
  intros Hd. rewrite bucket_unfold. cbv zeta.
  rewrite wrap32_id by lia.
  replace (Z.max (- d) 0) with 0 by lia. reflexivity.
Qed.

Lemma bucket_of_future_offsets_is_zero_witness : bucket 5 = 0.
Proof. apply bucket_of_future_offsets_is_zero. lia. Defined.

Lemma log_term_far (n : Z) : 128 <= n -> (16 <= log_term n)%R.
Proof.
  intros Hn. unfold log_term, float32_eps. change (32 - 16) with 16.
  assert (Hr : (128 <= IZR n)%R) by (now apply IZR_le).
  pose proof ln8_pos as H8.
  assert (Hl : (ln (IZR 128 / IZR 16) < ln (IZR n / 16 + / 8388608))%R).
  { apply ln_increasing; lra. }
  assert (Hq : (1 <= ln (IZR n / 16 + / 8388608) / ln (IZR 128 / IZR 16))%R).
  { set (a := ln (IZR n / 16 + / 8388608)) in *.
    set (b := ln (IZR 128 / IZR 16)) in *.
    assert (Hinv : (0 < / b)%R) by (now apply Rinv_0_lt_compat).
    assert (Hone : (b * / b = 1)%R) by (apply Rinv_r; lra).
    unfold Rdiv. nra. }
  lra.
Qed.

(** X6.  Every distance of [max_distance = 128] or more (an offset
    [d <= -128] between int32 positions) is clamped to the last bucket,
    31. *)
Theorem bucket_of_far_offsets_is_last (d : Z) :
  - 2 ^ 31 < d <= -128 -> bucket d = 31.
Proof.
  intros Hd. rewrite bucket_unfold. cbv zeta.
  rewrite wrap32_id by lia.
  replace (Z.max (- d) 0) with (- d) by lia.
  destruct (Z.ltb_spec (- d) 16) as [Hs|Hs]; [lia|].
  assert (H16 : 16 <= astype_int32 (log_term (- d))).
  { replace 16 with (astype_int32 16) at 1.
    - apply astype_int32_mono. split; [lra|]. apply log_term_far. lia.
    - unfold astype_int32. destruct (Rle_dec 0 16) as [_|Hn]; [|exfalso; apply Hn; lra].
      symmetry. apply Int_part_spec. lra. }
  lia.
Qed.

Lemma bucket_of_far_offsets_is_last_witness : bucket (-500) = 31.
Proof. apply bucket_of_far_offsets_is_last. lia. Defined.

Lemma onehot_gather (rp : Z) (row : list R) (a : nat) :
  rsum (zip_with (fun wgt i => wgt * (if rp =? i then 1 else 0))%R row
          (Z.of_nat <$> seq a (length row)))
  = if decide (Z.of_nat a <= rp < Z.of_nat (a + length row))
    then nth (Z.to_nat rp - a) row 0%R else 0%R.
Proof.
  revert a. induction row as [|x row IH]; intros a.
  - cbn [length seq fmap list_fmap zip_with]. rewrite rsum_nil.
    case_decide; [lia|reflexivity].
  - cbn [length seq]. rewrite fmap_cons. cbn [zip_with]. rewrite rsum_cons, IH.
    destruct (Z.eqb_spec rp (Z.of_nat a)) as [->|Hne].
    + replace (Z.to_nat (Z.of_nat a) - a)%nat with 0%nat by lia. cbn [nth].
      case_decide; [lia|]. case_decide; [|lia]. lra.
    + case_decide as H1; case_decide as H2; try lia; try lra.
      replace (Z.to_nat rp - a)%nat with (S (Z.to_nat rp - S a)) by lia.
      cbn [nth]. lra.
Qed.

(** X7.  The one-hot contraction of [__call__] is the gather the source
    comment announces: the bias of head [h] for query [q] and key [k] is
    entry [bucket(k - q)] of row [h] of the table.  The bucket is always
    computed with 32 buckets, whatever [num_buckets] is, so on a table with
    fewer columns the buckets beyond it get bias 0. *)
Theorem relative_position_bias_is_gather (rel_embedding : list (list R))
    (qlen klen num_buckets h q k : nat) (bias_h : list R) :
  rel_embedding !! h = Some bias_h ->
  length bias_h = num_buckets ->
  (q < qlen)%nat -> (k < klen)%nat ->
  (call rel_embedding qlen klen num_buckets !! h ≫= (.!! q)) ≫= (.!! k)
  = Some (let rp := bucket (wrap32 (Z.of_nat k - Z.of_nat q)) in
          if decide (rp < Z.of_nat num_buckets)
          then nth (Z.to_nat rp) bias_h 0%R else 0%R).
Proof.
  intros Hh Hlen Hq Hk. unfold call, arange. cbv zeta.
  rewrite list_lookup_fmap, Hh. cbn [fmap option_fmap option_map mbind option_bind].
  rewrite !list_lookup_fmap, lookup_seq_lt by exact Hq.
  cbn [fmap option_fmap option_map mbind option_bind].
  rewrite !list_lookup_fmap, lookup_seq_lt by exact Hk.
  cbn [fmap option_fmap option_map mbind option_bind]. f_equal.
  rewrite <- Hlen, onehot_gather.
  pose proof (bucket_range (wrap32 (Z.of_nat k - Z.of_nat q))) as Hb.
  rewrite !Nat.add_0_l, Nat.sub_0_r. cbv zeta.
  repeat case_decide; try lia; reflexivity.
Qed.

Lemma relative_position_bias_is_gather_witness :
  (call [[10; 20; 30]%R] 3 3 3 !! 0%nat ≫= (.!! 2%nat)) ≫= (.!! 0%nat)
  = Some (let rp := bucket (wrap32 (Z.of_nat 0 - Z.of_nat 2)) in
          if decide (rp < Z.of_nat 3) then nth (Z.to_nat rp) [10; 20; 30]%R 0%R else 0%R).
Proof.
  apply (relative_position_bias_is_gather [[10; 20; 30]%R] 3 3 3 0 2 0 [10; 20; 30]%R).
  - reflexivity.
  - reflexivity.
  - lia.
  - lia.
Defined.

End RelativePositionBias.

(** ** Replication across the shards *)

Section Replication.
Local Open Scope R_scope.

Lemma psum_replicated {T : Type} `{Summable T} (xs : list T) :
  replicated (Collective.psum xs).
Proof.
  unfold Collective.psum. destruct (Collective.total xs) as [s|].
  - intros i j a b Ha Hb.
    apply list_lookup_fmap_Some_1 in Ha as (? & -> & _).
    apply list_lookup_fmap_Some_1 in Hb as (? & -> & _). reflexivity.
  - intros i j a b Ha. rewrite lookup_nil in Ha. discriminate.
Qed.

Lemma zip_with_replicated {A B C : Type} (f : A -> B -> C) (xs : list A) (ys : list B) :
  replicated xs -> replicated ys -> replicated (zip_with f xs ys).
Proof.
  intros Hx Hy i j a b Ha Hb.
  apply lookup_zip_with_Some in Ha as (x1 & y1 & -> & Hx1 & Hy1).
  apply lookup_zip_with_Some in Hb as (x2 & y2 & -> & Hx2 & Hy2).
  rewrite (Hx i j x1 x2 Hx1 Hx2), (Hy i j y1 y2 Hy1 Hy2). reflexivity.
Qed.

Lemma fmap_replicated {A B : Type} (f : A -> B) (xs : list A) :
  replicated xs -> replicated (f <$> xs).
Proof.
  intros Hx i j a b Ha Hb.
  apply list_lookup_fmap_Some_1 in Ha as (x1 & -> & Hx1).
  apply list_lookup_fmap_Some_1 in Hb as (x2 & -> & Hx2).
  now rewrite (Hx i j x1 x2 Hx1 Hx2).
Qed.

Lemma layer_output_replicated (l : TransformerLayerShard.t)
    (p : list TransformerLayerShard.layer_params) (x : list (list (list R)))
    (attn_bias : list (option (list (list (list R))))) :
  replicated (TransformerLayerShard.__call__ l p x attn_bias).
Proof. unfold TransformerLayerShard.__call__. cbv zeta. apply psum_replicated. Qed.

Lemma run_layers_replicated
    (ls : list (TransformerLayerShard.t * list TransformerLayerShard.layer_params))
    (attn_bias : list (option (list (list (list R))))) (x : list (list (list R))) :
  replicated x -> replicated (CausalTransformerShard.run_layers ls attn_bias x).
Proof.
  revert x. induction ls as [|[l p] ls IH]; intros x Hx; [exact Hx|].
  unfold CausalTransformerShard.run_layers in *. cbn [fold_left]. apply IH.
  apply zip_with_replicated; [exact Hx|apply layer_output_replicated].
Qed.

(** X8.  Every shard holds the same activations at every stage of the
    forward pass: the embedding output, the output of every transformer
    block and the residual stream handed to the loss are replicated, for
    any parameters and any tokens. *)
Theorem residual_stream_is_replicated (m : CausalTransformerShard.t)
    (ps : CausalTransformerShard.model_params) (context : list Z)
    (attn_bias : list (option (list (list (list R))))) :
  replicated (EmbeddingShard.__call__ (CausalTransformerShard.embed m)
                (CausalTransformerShard.embed_p ps) context) /\
  (forall l p x, replicated (TransformerLayerShard.__call__ l p x attn_bias)) /\
  replicated
    (CausalTransformerShard.run_layers
       (zip (CausalTransformerShard.transformer_layers m)
            (CausalTransformerShard.layers_p ps))
       attn_bias
       (EmbeddingShard.__call__ (CausalTransformerShard.embed m)
          (CausalTransformerShard.embed_p ps) context)).
Proof.
  assert (He : replicated (EmbeddingShard.__call__ (CausalTransformerShard.embed m)
                             (CausalTransformerShard.embed_p ps) context))
    by apply psum_replicated.
  split; [exact He|]. split.
  - intros l p x. apply layer_output_replicated.
  - now apply run_layers_replicated.
Qed.

(** X9.  The per-token losses and the mean loss are the same on every
    shard, for any parameters, activations and targets: both reductions of
    the loss protocol end in a forward sum, so no shard-dependent value
    reaches the result. *)
Theorem loss_is_replicated :
  (forall (m : ProjectionShard.t) (params : list ProjectionShard.proj_params)
          (x : list (list (list R))) (targets : list Z) (z_loss : bool),
      replicated (ProjectionShard.loss m params x targets z_loss)) /\
  (forall (m : CausalTransformerShard.t) (ps : CausalTransformerShard.model_params)
          (ctx tgt : list Z) (z_loss : bool),
      replicated (CausalTransformerShard.eval m ps ctx tgt z_loss) /\
      replicated (CausalTransformerShard.loss m ps ctx tgt z_loss)).
Proof.
  assert (Hloss : forall m params x targets z_loss,
             replicated (ProjectionShard.loss m params x targets z_loss)).
  { intros m params x targets z_loss. unfold ProjectionShard.loss. cbv zeta.
    apply zip_with_replicated; apply psum_replicated. }
  split; [exact Hloss|]. intros m ps ctx tgt z_loss.
  assert (He : replicated (CausalTransformerShard.eval m ps ctx tgt z_loss))
    by apply Hloss.
  split; [exact He|]. unfold CausalTransformerShard.loss. now apply fmap_replicated.
Qed.

End Replication.

(** ** More on the projection and the embedding *)

Section ProjectionAndEmbedding.
Local Open Scope R_scope.

Lemma rsum_exp_ge_entry (row : list R) (t : nat) :
  (t < length row)%nat -> exp (nth t row 0) <= rsum (exp <$> row).
Proof.
  revert t. induction row as [|a row IH]; intros t Ht; [simpl in Ht; lia|].
  rewrite fmap_cons, rsum_cons. destruct t as [|t]; cbn [nth].
  - pose proof (rsum_exp_nonneg row). lra.
  - pose proof (exp_pos a). specialize (IH t ltac:(simpl in Ht; lia)). lra.
Qed.

Lemma cross_entropy_nonneg (row : list R) (t : nat) :
  (t < length row)%nat -> 0 <= ProjectionShard.cross_entropy row t.
Proof.
  intros Ht. unfold ProjectionShard.cross_entropy.
  pose proof (rsum_exp_ge_entry row t Ht) as Hge.
  pose proof (exp_pos (nth t row 0)) as Hpos.
  assert (Hln : nth t row 0 <= ln (rsum (exp <$> row))).
  { rewrite <- (ln_exp (nth t row 0)) at 1.
    destruct Hge as [Hlt|Heq]; [left; now apply ln_increasing|rewrite Heq; lra]. }
  lra.
Qed.

(** The row of logits that [__call__] assembles for a token. *)
Lemma gathered_row (m : ProjectionShard.t) (params : list ProjectionShard.proj_params)
    (x : list (list (list R))) (n s tok : nat) :
  well_shaped n (Z.to_nat (ProjectionShard.dim_per_shard m))
    (ProjectionShard.local_logits m params x) ->
  (s < length (ProjectionShard.local_logits m params x))%nat -> (tok < n)%nat ->
  ProjectionShard.__call__ m params x !! s ≫= (.!! tok)
  = Some (concat ((fun L => nth tok L []) <$> ProjectionShard.local_logits m params x)).
Proof.
  intros Hshape Hs Htok. unfold ProjectionShard.__call__. cbv zeta.
  remember (ProjectionShard.local_logits m params x) as Ls eqn:HLs. clear HLs.
  unfold Collective.all_gather. rewrite !list_lookup_fmap.
  destruct (lookup_lt_is_Some_2 Ls s Hs) as [Ls_s HLs_s]. rewrite HLs_s. simpl.
  unfold ProjectionShard.transpose_flatten.
  destruct Ls as [|first rest] eqn:E; [simpl in Hs; lia|].
  rewrite list_lookup_imap. apply Forall_cons in Hshape as [[Hfirst _] _].
  destruct (lookup_lt_is_Some_2 first tok ltac:(lia)) as [r Hr]. rewrite Hr.
  reflexivity.
Qed.

(** X10.  [__call__] gives every shard, for every token, a row of
    [shards * dim_per_shard] logits: the shards' slices in shard order. *)
Theorem gathered_logits_cover_the_vocabulary (m : ProjectionShard.t)
    (params : list ProjectionShard.proj_params) (x : list (list (list R)))
    (n s tok : nat) :
  length x = length params ->
  Forall (fun M => length M = n) x ->
  Forall (proj_shaped (Z.to_nat (ProjectionShard.dim_per_shard m))) params ->
  (s < length params)%nat -> (tok < n)%nat ->
  exists row : list R,
    ProjectionShard.__call__ m params x !! s ≫= (.!! tok) = Some row /\
    length row = (length params * Z.to_nat (ProjectionShard.dim_per_shard m))%nat /\
    row = concat ((fun L => nth tok L []) <$> ProjectionShard.local_logits m params x).
Proof.
  intros Hlen Hx Hp Hs Htok.
  destruct (local_logits_shape m params x n Hlen Hx Hp) as [Hl Hshape].
  eexists. split; [apply (gathered_row m params x n s tok Hshape); lia|].
  split; [|reflexivity].
  rewrite (length_concat_uniform _ (Z.to_nat (ProjectionShard.dim_per_shard m))).
  - now rewrite length_fmap, Hl.
  - now apply well_shaped_rows with (n := n).
Qed.

Lemma gathered_logits_cover_the_vocabulary_witness :
  exists row : list R,
    ProjectionShard.__call__ vocab8_projection vocab8_params unit_activations !! 1%nat
      ≫= (.!! 0%nat) = Some row /\
    length row = (length vocab8_params
                  * Z.to_nat (ProjectionShard.dim_per_shard vocab8_projection))%nat /\
    row = concat ((fun L => nth 0 L []) <$>
                    ProjectionShard.local_logits vocab8_projection vocab8_params
                      unit_activations).
Proof.
  apply (gathered_logits_cover_the_vocabulary vocab8_projection vocab8_params
           unit_activations 1 1 0).
  - reflexivity.
  - repeat constructor.
  - repeat constructor.
  - simpl. lia.
  - lia.
Defined.

(** X11.  For a target inside the vocabulary the sharded loss of every
    token is never negative. *)
Theorem sharded_loss_is_nonnegative (m : ProjectionShard.t)
    (params : list ProjectionShard.proj_params) (x : list (list (list R)))
    (targets : list Z) (z_loss : bool) (s tok : nat) (tgt : Z) :
  length x = length params ->
  Forall (fun M => length M = length targets) x ->
  Forall (proj_shaped (Z.to_nat (ProjectionShard.dim_per_shard m))) params ->
  (s < length params)%nat ->
  targets !! tok = Some tgt ->
  (0 <= tgt < Z.of_nat (length params) * ProjectionShard.dim_per_shard m)%Z ->
  exists v : R,
    ProjectionShard.loss m params x targets z_loss !! s ≫= (.!! tok) = Some v /\ 0 <= v.
Proof.
  intros Hlen Hx Hp Hs Htok Htgt.
  destruct (local_logits_shape m params x (length targets) Hlen Hx Hp) as [Hl Hshape].
  destruct (loss_of_shaped_logits m params x targets z_loss s tok tgt)
    as (row & Hrow & Hloss); try assumption; try (rewrite Hl; assumption).
  eexists. split; [exact Hloss|].
  apply cross_entropy_nonneg.
  assert (Hn : (tok < length targets)%nat) by (now apply lookup_lt_Some in Htok).
  rewrite (gathered_row m params x (length targets) s tok Hshape) in Hrow by lia.
  injection Hrow as <-.
  rewrite (length_concat_uniform _ (Z.to_nat (ProjectionShard.dim_per_shard m)))
    by (now apply well_shaped_rows with (n := length targets)).
  rewrite length_fmap, Hl. nia.
Qed.

Lemma sharded_loss_is_nonnegative_witness :
  exists v : R,
    ProjectionShard.loss vocab8_projection vocab8_params unit_activations [5%Z] false
      !! 0%nat ≫= (.!! 0%nat) = Some v /\ 0 <= v.
Proof.
  apply (sharded_loss_is_nonnegative vocab8_projection vocab8_params unit_activations
           [5%Z] false 0 0 5).
  - reflexivity.
  - repeat constructor.
  - repeat constructor.
  - simpl. lia.
  - reflexivity.
  - simpl. lia.
Defined.

Section OutOfVocabulary.
Import EmbeddingShard Linear.

(** X12.  A token id outside the whole vocabulary (negative, or at least
    [shards * in_dim_per_shard]) selects no row on any shard and raises
    nothing: the layer returns the sum of the shards' biases for it. *)
Theorem embedding_of_unknown_token_is_bias_sum (m : t) (params : list linear_params)
    (x : list Z) (s tok_i : nat) (tok : Z) :
  (0 < in_dim_per_shard m)%Z ->
  Forall (linear_shaped (Z.to_nat (in_dim_per_shard m)) (Z.to_nat (out_dim m))) params ->
  x !! tok_i = Some tok ->
  (tok < 0 \/ Z.of_nat (length params) * in_dim_per_shard m <= tok)%Z ->
  (s < length params)%nat ->
  exists bias_sum : list R,
    Collective.total (b <$> params) = Some bias_sum /\
    __call__ m params x !! s ≫= (.!! tok_i) = Some bias_sum.
Proof.
  intros Hips Hshape Hx Htok Hs.
  set (ips := in_dim_per_shard m) in *. set (od := Z.to_nat (out_dim m)) in *.
  destruct params as [|p0 prest] eqn:Eparams; [simpl in Hs; lia|].
  rewrite <- Eparams in *.
  assert (Htoki : (tok_i < length x)%nat) by (now apply lookup_lt_Some in Hx).
  assert (Hrow : forall i p, params !! i = Some p ->
            nth tok_i (nth i (proj_out m params x) []) [] = b p).
  { intros i p Hp. pose proof (proj_out_row m params x i tok_i p tok Hp Hx) as Hr.
    assert (Hi : (i < length params)%nat) by (now apply lookup_lt_Some in Hp).
    rewrite one_hot_outside in Hr by (fold ips; nia).
    rewrite linear_zero_row in Hr by (eapply Forall_lookup_1 in Hshape; eauto).
    destruct (proj_out m params x !! i) as [M|] eqn:EM; [|discriminate].
    simpl in Hr. rewrite (nth_lookup_Some _ _ _ _ EM).
    now rewrite (nth_lookup_Some _ _ _ _ Hr). }
  assert (Hlen : length (proj_out m params x) = length params).
  { unfold proj_out, Collective.with_axis_index. apply length_imap. }
  assert (Hrows_n : Forall (fun M => length M = length x) (proj_out m params x)).
  { unfold proj_out, Collective.with_axis_index. apply Forall_lookup_2.
    intros i M HM. apply list_lookup_imap_Some in HM as (p & _ & ->).
    unfold call, local_onehot. now rewrite !length_fmap. }
  assert (Hrows_eq : (fun M : list (list R) => nth tok_i M []) <$> proj_out m params x
                     = b <$> params).
  { apply list_eq. intros i. rewrite !list_lookup_fmap.
    destruct (params !! i) as [p|] eqn:Hp.
    - rewrite (lookup_nth_lt _ i []) by (rewrite Hlen; now apply lookup_lt_Some in Hp).
      simpl. now rewrite (Hrow i p Hp).
    - apply lookup_ge_None in Hp. rewrite lookup_ge_None_2 by lia. reflexivity. }
  exists (fold_left (zip_with Rplus) (b <$> prest) (b p0)). split.
  { rewrite Eparams. reflexivity. }
  unfold __call__. cbn [primal g_psum]. unfold g_psum_primal, Collective.psum.
  assert (Hex : exists M0 Mrest, proj_out m params x = M0 :: Mrest).
  { destruct (proj_out m params x) as [|M0 Mrest];
      [rewrite Eparams in Hlen; simpl in Hlen; lia|]. eauto. }
  destruct Hex as (M0 & Mrest & EP). rewrite EP. cbn [Collective.total].
  rewrite list_lookup_fmap, (lookup_nth_lt _ s []) by (rewrite <- EP; lia).
  cbn [fmap option_fmap option_map mbind option_bind].
  change (@tadd (list (list R)) _) with (zip_with (zip_with Rplus)).
  rewrite EP in Hrows_n. apply Forall_cons in Hrows_n as [HM0 HMrest].
  rewrite (lookup_nth_lt _ tok_i [])
    by (rewrite (fold_zip_length_gen _ _ _ (length x)); auto).
  f_equal.
  rewrite (fold_zip_nth _ Mrest M0 (length x) tok_i []) by auto.
  rewrite EP, Eparams, !fmap_cons in Hrows_eq.
  injection Hrows_eq as -> ->. reflexivity.
Qed.

Lemma embedding_of_unknown_token_is_bias_sum_witness :
  exists bias_sum : list R,
    Collective.total (b <$> small_embedding_params) = Some bias_sum /\
    __call__ small_embedding small_embedding_params [7%Z] !! 0%nat ≫= (.!! 0%nat)
    = Some bias_sum.
Proof.
  apply (embedding_of_unknown_token_is_bias_sum small_embedding small_embedding_params
           [7%Z] 0 0 7%Z).
  - simpl. lia.
  - repeat constructor.
  - reflexivity.
  - right. simpl. lia.
  - simpl. lia.
Defined.

End OutOfVocabulary.

End ProjectionAndEmbedding.

(** ** Construction: what is raised, and what a valid configuration builds *)

Section ConstructionOrder.
Context {O : Type}.
Implicit Types c : config O.
Local Open Scope Z_scope.

Lemma py_floordiv_zero (a : Z) : py_floordiv a 0 = Raise ZeroDivisionError.
Proof. reflexivity. Qed.

Lemma embedding_init_ok c :
  cores_per_replica c <> 0 -> n_vocab c mod cores_per_replica c = 0 ->
  EmbeddingShard.__init__ c
  = Ok {| EmbeddingShard.in_dim := n_vocab c;
          EmbeddingShard.out_dim := d_model c;
          EmbeddingShard.in_dim_per_shard := n_vocab c / cores_per_replica c |}.
Proof.
  intros Hs Hv. unfold EmbeddingShard.__init__.
  rewrite py_mod_ok, py_floordiv_ok, Hv by assumption. reflexivity.
Qed.

Lemma projection_init_ok c (nm : Norm.norm_module) :
  cores_per_replica c <> 0 -> n_vocab c mod cores_per_replica c = 0 ->
  Norm.getnorm (config_norm c) = Ok nm ->
  ProjectionShard.__init__ c
  = Ok {| ProjectionShard.dim := n_vocab c;
          ProjectionShard.dim_per_shard := n_vocab c / cores_per_replica c;
          ProjectionShard.norm := nm |}.
Proof.
  intros Hs Hv Hn. unfold ProjectionShard.__init__.
  rewrite Hn, py_mod_ok, py_floordiv_ok, Hv by assumption. reflexivity.
Qed.

Lemma layer_init_ok c (nm : Norm.norm_module) (init_scale : R) :
  cores_per_replica c <> 0 -> n_heads c <> 0 ->
  d_model c mod n_heads c = 0 -> n_heads c mod cores_per_replica c = 0 ->
  Norm.getnorm (config_norm c) = Ok nm ->
  TransformerLayerShard.__init__ c init_scale
  = Ok {| TransformerLayerShard.dim := d_model c;
          TransformerLayerShard.dim_per_head := d_model c / n_heads c;
          TransformerLayerShard.heads_per_shard := n_heads c / cores_per_replica c;
          TransformerLayerShard.dim_per_shard := d_model c / cores_per_replica c;
          TransformerLayerShard.norm := nm |}.
Proof.
  intros Hs Hh Hd Hhs Hn. unfold TransformerLayerShard.__init__.
  rewrite Hn, !py_mod_ok, !py_floordiv_ok, Hd, Hhs by assumption. reflexivity.
Qed.

(** X13.  The exceptions of the constructor, in the order the code reaches
    them: a zero shard count divides by zero before anything is checked;
    then the vocabulary assertion; then a zero layer count divides by zero;
    then, when there is at least one layer, the norm name, a zero head
    count, and the two head assertions. *)
Theorem construction_raises_in_order c :
  (cores_per_replica c = 0 ->
   CausalTransformerShard.__init__ c = Raise ZeroDivisionError) /\
  (cores_per_replica c <> 0 -> n_vocab c mod cores_per_replica c <> 0 ->
   CausalTransformerShard.__init__ c = Raise AssertionError) /\
  (cores_per_replica c <> 0 -> n_vocab c mod cores_per_replica c = 0 ->
   (layers c = 0 -> CausalTransformerShard.__init__ c = Raise ZeroDivisionError) /\
   (0 < layers c ->
    (~ In (config_norm c) Norm.norm_kinds ->
     CausalTransformerShard.__init__ c = Raise (Exception "Not implemented")) /\
    (In (config_norm c) Norm.norm_kinds ->
     (n_heads c = 0 -> CausalTransformerShard.__init__ c = Raise ZeroDivisionError) /\
     (n_heads c <> 0 ->
      (d_model c mod n_heads c <> 0 \/ n_heads c mod cores_per_replica c <> 0) ->
      CausalTransformerShard.__init__ c = Raise AssertionError)))).
Proof.
  split; [|split].
  - intros Hs. unfold CausalTransformerShard.__init__. rewrite Hs, py_floordiv_zero.
    reflexivity.
  - intros Hs Hv. unfold CausalTransformerShard.__init__, EmbeddingShard.__init__.
    rewrite !py_floordiv_ok, py_mod_ok by assumption. cbn [mbind result_bind].
    destruct (Z.eqb_spec (n_vocab c mod cores_per_replica c) 0); [contradiction|].
    cbn [py_assert mbind result_bind]. reflexivity.
  - intros Hs Hv. unfold CausalTransformerShard.__init__.
    rewrite py_floordiv_ok, embedding_init_ok by assumption. cbn [mbind result_bind].
    split.
    + intros ->. reflexivity.
    + intros Hl. destruct (Z.eqb_spec (layers c) 0) as [|_]; [lia|].
      cbn [mbind result_bind].
      assert (Hne : py_range 0 (layers c) <> []) by (now apply py_range_nonempty).
      unfold TransformerLayerShard.__init__. split.
      * intros Hout. rewrite (getnorm_rejects _ Hout). cbn [mbind result_bind].
        rewrite mapM_const_raise by exact Hne. reflexivity.
      * intros Hin. destruct (getnorm_accepts _ Hin) as [nm Hnm]. rewrite Hnm.
        cbn [mbind result_bind]. split.
        -- intros Hh. rewrite Hh, py_mod_zero. cbn [mbind result_bind].
           rewrite mapM_const_raise by exact Hne. reflexivity.
        -- intros Hh Hviol. rewrite (py_mod_ok _ _ Hh). cbn [mbind result_bind].
           destruct (Z.eqb_spec (d_model c mod n_heads c) 0) as [Hd|Hd];
             cbn [py_assert mbind result_bind].
           2:{ rewrite mapM_const_raise by exact Hne. reflexivity. }
           rewrite (py_mod_ok _ _ Hs). cbn [mbind result_bind].
           destruct (Z.eqb_spec (n_heads c mod cores_per_replica c) 0) as [Hhs|Hhs];
             cbn [py_assert mbind result_bind]; [lia|].
           rewrite mapM_const_raise by exact Hne. reflexivity.
Qed.

(** X14.  A negative layer count is not rejected: the loop over
    [range(layer_count)] is empty, no transformer block is built, and the
    two head assertions are never reached, so the model builds even when
    the heads do not divide the model dimension. *)
Theorem negative_layer_count_builds_without_layers c :
  layers c < 0 ->
  cores_per_replica c <> 0 -> n_vocab c mod cores_per_replica c = 0 ->
  In (config_norm c) Norm.norm_kinds ->
  exists m : CausalTransformerShard.t,
    CausalTransformerShard.__init__ c = Ok m /\
    CausalTransformerShard.transformer_layers m = [].
Proof.
  intros Hl Hs Hv Hin. destruct (getnorm_accepts _ Hin) as [nm Hnm].
  unfold CausalTransformerShard.__init__.
  rewrite py_floordiv_ok, embedding_init_ok, (projection_init_ok c nm) by assumption.
  cbn [mbind result_bind].
  destruct (Z.eqb_spec (layers c) 0) as [|_]; [lia|]. cbn [mbind result_bind].
  unfold py_range. replace (seqZ 0 (layers c - 0)) with (@nil Z).
  - cbn. eexists. split; reflexivity.
  - symmetry. apply length_zero_iff_nil. rewrite length_seqZ. lia.
Qed.

(** X15.  An unsupported norm name never builds a model, whatever the rest
    of the configuration is. *)
Theorem unsupported_norm_never_builds c :
  ~ In (config_norm c) Norm.norm_kinds ->
  exists e : exn, CausalTransformerShard.__init__ c = Raise e.
Proof.
  intros Hout. pose proof (getnorm_rejects _ Hout) as Hnorm.
  unfold CausalTransformerShard.__init__.
  destruct (Z.eq_dec (cores_per_replica c) 0) as [Hs0|Hs].
  { rewrite Hs0, py_floordiv_zero. eauto. }
  rewrite (py_floordiv_ok _ _ Hs). cbn [mbind result_bind].
  destruct (EmbeddingShard.__init__ c) as [em|e]; cbn [mbind result_bind]; [|eauto].
  destruct (Z.eqb_spec (layers c) 0); cbn [mbind result_bind]; [eauto|].
  destruct (mapM _ (py_range 0 (layers c))) as [ls|e]; cbn [mbind result_bind]; [|eauto].
  unfold ProjectionShard.__init__. rewrite Hnorm. cbn [mbind result_bind]. eauto.
Qed.

(** X16.  A configuration that satisfies the invariants, with a supported
    norm name and a layer count other than zero, builds; the model has one
    block per layer, each shard gets an equal share of the heads, of the
    model dimension and of the vocabulary, and a shard's slice of the model
    dimension is exactly [heads_per_shard] heads of [dim_per_head]
    features, so the reshape of [__call__] loses nothing. *)
Theorem valid_configuration_partitions_evenly c :
  invariants c -> layers c <> 0 -> In (config_norm c) Norm.norm_kinds ->
  exists m : CausalTransformerShard.t,
    CausalTransformerShard.__init__ c = Ok m /\
    length (CausalTransformerShard.transformer_layers m) = Z.to_nat (layers c) /\
    Forall (fun l =>
              TransformerLayerShard.dim l = d_model c /\
              TransformerLayerShard.dim_per_head l * n_heads c = d_model c /\
              TransformerLayerShard.heads_per_shard l * cores_per_replica c = n_heads c /\
              TransformerLayerShard.dim_per_shard l * cores_per_replica c = d_model c /\
              TransformerLayerShard.dim_per_shard l
              = TransformerLayerShard.heads_per_shard l
                * TransformerLayerShard.dim_per_head l)
           (CausalTransformerShard.transformer_layers m) /\
    EmbeddingShard.in_dim_per_shard (CausalTransformerShard.embed m)
      * cores_per_replica c = n_vocab c /\
    ProjectionShard.dim_per_shard (CausalTransformerShard.proj m)
      * cores_per_replica c = n_vocab c /\
    CausalTransformerShard.heads_per_shard m * cores_per_replica c = n_heads c.
Proof.
  intros (Hd & Hhs & Hv & Hds) Hl Hin.
  destruct (getnorm_accepts _ Hin) as [nm Hnm].
  assert (Hs : cores_per_replica c <> 0).
  { intros E. unfold py_mod in Hv. rewrite E in Hv. discriminate. }
  assert (Hh : n_heads c <> 0).
  { intros E. unfold py_mod in Hd. rewrite E in Hd. discriminate. }
  rewrite py_mod_ok in Hd, Hhs, Hv, Hds by assumption.
  injection Hd as Hd. injection Hhs as Hhs. injection Hv as Hv. injection Hds as Hds.
  unfold CausalTransformerShard.__init__.
  rewrite py_floordiv_ok, embedding_init_ok, (projection_init_ok c nm) by assumption.
  cbn [mbind result_bind].
  destruct (Z.eqb_spec (layers c) 0) as [|_]; [contradiction|]. cbn [mbind result_bind].
  rewrite (layer_init_ok c nm _ Hs Hh Hd Hhs Hnm).
  rewrite mapM_const_ok. cbn [mbind result_bind].
  eexists. split; [reflexivity|]. cbn.
  assert (Hdh : d_model c / n_heads c * n_heads c = d_model c).
  { pose proof (Z.div_mod (d_model c) (n_heads c) Hh). lia. }
  assert (Hhc : n_heads c / cores_per_replica c * cores_per_replica c = n_heads c).
  { pose proof (Z.div_mod (n_heads c) (cores_per_replica c) Hs). lia. }
  assert (Hdc : d_model c / cores_per_replica c * cores_per_replica c = d_model c).
  { pose proof (Z.div_mod (d_model c) (cores_per_replica c) Hs). lia. }
  assert (Hvc : n_vocab c / cores_per_replica c * cores_per_replica c = n_vocab c).
  { pose proof (Z.div_mod (n_vocab c) (cores_per_replica c) Hs). lia. }
  split; [|split; [|split; [|split]]]; try assumption.
  - unfold py_range. now rewrite length_replicate, length_seqZ, Z.sub_0_r.
  - apply Forall_replicate. cbn. repeat split; try assumption.
    apply (Z.mul_cancel_r _ _ (cores_per_replica c) Hs). nia.
Qed.

End ConstructionOrder.

Lemma negative_layer_count_builds_without_layers_witness :
  exists m : CausalTransformerShard.t,
    CausalTransformerShard.__init__ negative_layers_config = Ok m /\
    CausalTransformerShard.transformer_layers m = [].
Proof.
  apply negative_layer_count_builds_without_layers.
  - simpl. lia.
  - simpl. lia.
  - reflexivity.
  - simpl. tauto.
Defined.

Lemma unsupported_norm_never_builds_witness :
  exists e : exn,
    CausalTransformerShard.__init__
      {| n_vocab := 8; d_model := 4; cores_per_replica := 2; n_heads := 2;
         layers := 1; norm := "layernorm-no-bias"; seq_len := 3; optimizer := tt |}
    = Raise e.
Proof.
  apply unsupported_norm_never_builds. simpl.
  intros [H|[H|[H|[H|[H|[H|[]]]]]]]; discriminate H.
Defined.

Lemma valid_configuration_partitions_evenly_witness :
  exists m : CausalTransformerShard.t,
    CausalTransformerShard.__init__ good_config = Ok m /\
    length (CausalTransformerShard.transformer_layers m) = Z.to_nat (layers good_config).
Proof.
  destruct (valid_configuration_partitions_evenly good_config) as (m & Hm & Hlen & _).
  - repeat split.
  - simpl. lia.
  - simpl. tauto.
  - exists m. split; assumption.
Defined.

Lemma construction_raises_in_order_witness :
  CausalTransformerShard.__init__ bad_config = Raise AssertionError.
Proof.
  destruct (construction_raises_in_order bad_config) as (_ & _ & Hrest).
  destruct Hrest as [_ Hlayers]; [simpl; lia | reflexivity |].
  destruct Hlayers as [_ Hnorm]; [simpl; lia |].
  destruct Hnorm as [_ Hheads]; [simpl; tauto |].
  apply Hheads; [simpl; lia |].
  left. simpl. vm_compute. discriminate.
Defined.

(** ** Backward rules and layer normalization *)

Section BackwardRules.
Local Open Scope R_scope.

Lemma psum_reals (g : list R) :
  Collective.psum g = replicate (length g) (rsum g).
Proof.
  destruct g as [|x0 rest]; [reflexivity|].
  unfold Collective.psum. cbn [Collective.total].
  change (@tadd R _) with Rplus. rewrite fold_left_Rplus_rsum, rsum_cons.
  symmetry. apply replicate_as_Forall. split.
  - now rewrite length_fmap.
  - apply Forall_fmap, Forall_forall. intros; reflexivity.
Qed.

(** X17.  The backward rules of the two forward-identity operators, on one
    real cotangent per shard: [f_psum] hands every shard the sum of the
    cotangents and [f_pmean] their mean.  On a cotangent that is already
    the same on all [k + 1] shards, the mean returns it unchanged, while
    the sum multiplies it by the number of shards. *)
Theorem backward_sum_and_mean (x g : list R) :
  snd (vjp f_psum x) g = replicate (length g) (rsum g) /\
  snd (vjp f_pmean x) g = replicate (length g) (rsum g / INR (length g)) /\
  (forall (k : nat) (c : R),
      snd (vjp f_pmean x) (replicate (S k) c) = replicate (S k) c /\
      snd (vjp f_psum x) (replicate (S k) c) = replicate (S k) (INR (S k) * c)).
Proof.
  assert (Hsum : forall g0 : list R,
             snd (vjp f_psum x) g0 = replicate (length g0) (rsum g0)).
  { intros g0. cbn. unfold f_psum_bwd. apply psum_reals. }
  assert (Hmean : forall g0 : list R,
             snd (vjp f_pmean x) g0
             = replicate (length g0) (rsum g0 / INR (length g0))).
  { intros g0. cbn. unfold f_pmean_bwd, Collective.pmean.
    rewrite psum_reals, fmap_replicate. f_equal.
    change (@tscale R _) with Rmult. unfold Rdiv. lra. }
  split; [apply Hsum|]. split; [apply Hmean|].
  intros k c. rewrite Hsum, Hmean, length_replicate, rsum_replicate. split; [|reflexivity].
  f_equal. assert (Hk : INR (S k) <> 0) by (apply not_0_INR; lia).
  field. exact Hk.
Qed.

End BackwardRules.

Section LayerNormShift.
Import Norm.
Local Open Scope R_scope.

Lemma rsum_shift (c : R) (row : list R) :
  rsum ((fun v => v + c) <$> row) = rsum row + INR (length row) * c.
Proof.
  induction row as [|a row IH].
  - cbn [fmap list_fmap length]. change (rsum []) with 0. simpl. lra.
  - rewrite fmap_cons, !rsum_cons, IH. cbn [length]. rewrite S_INR. lra.
Qed.

Lemma mean_shift (c : R) (row : list R) :
  row <> [] -> mean ((fun v => v + c) <$> row) = mean row + c.
Proof.
  intros Hne. unfold mean. rewrite rsum_shift, length_fmap.
  assert (Hn : INR (length row) <> 0).
  { apply not_0_INR. destruct row; [congruence|simpl; lia]. }
  field. exact Hn.
Qed.

Lemma var_shift (c : R) (row : list R) :
  row <> [] -> var ((fun v => v + c) <$> row) = var row.
Proof.
  intros Hne. unfold var. cbv zeta. rewrite mean_shift by exact Hne.
  rewrite length_fmap, <- list_fmap_compose. f_equal. f_equal.
  apply list_fmap_ext. intros _ v _. cbn. lra.
Qed.

(** X18.  Layer normalization does not see a constant added to all the
    features of a row: the row's mean moves with it and its variance does
    not change.  This holds for every scale and offset, with and without
    the offset, and so for the whole [ReplicatedLayerNorm.__call__]. *)
Theorem layernorm_ignores_constant_shift (use_offset : bool) (c : R) :
  (forall (scale offset row : list R),
      layernorm_row use_offset scale offset ((fun v => v + c) <$> row)
      = layernorm_row use_offset scale offset row) /\
  (forall (params : list norm_params) (x : list (list (list R))),
      ReplicatedLayerNorm_call use_offset params
        (fmap (M := list) (fmap (M := list) (fmap (M := list) (fun v => v + c))) x)
      = ReplicatedLayerNorm_call use_offset params x).
Proof.
  assert (Hrow : forall scale offset row : list R,
             layernorm_row use_offset scale offset ((fun v => v + c) <$> row)
             = layernorm_row use_offset scale offset row).
  { intros scale offset row. destruct row as [|a row].
    { reflexivity. }
    assert (Hne : a :: row <> []) by discriminate.
    unfold layernorm_row. cbv zeta.
    rewrite mean_shift, var_shift by exact Hne.
    assert (Hz : forall inv : list R,
               zip_with (fun i x0 => i * (x0 - (mean (a :: row) + c))) inv
                        ((fun v => v + c) <$> a :: row)
               = zip_with (fun i x0 => i * (x0 - mean (a :: row))) inv (a :: row)).
    { intros inv. rewrite zip_with_fmap_r. apply zip_with_ext; [|reflexivity..].
      intros i v. cbn. lra. }
    rewrite Hz. reflexivity. }
  split; [exact Hrow|].
  intros params x. unfold ReplicatedLayerNorm_call. cbv zeta.
  rewrite zip_with_fmap_r. apply zip_with_ext; [|reflexivity..].
  intros [s o] M. cbn. rewrite <- list_fmap_compose. apply list_fmap_ext.
  intros _ row _. cbn. apply Hrow.
Qed.

End LayerNormShift.

(** ** The embedding at initialization *)

Section EmbeddingAtInitialization.
Import EmbeddingShard Linear.
Local Open Scope R_scope.

Lemma zip_plus_zeros (row : list R) :
  zip_with Rplus row (replicate (length row) 0) = row.
Proof.
  induction row as [|a row IH]; [reflexivity|].
  cbn [length replicate zip_with]. rewrite IH. f_equal. lra.
Qed.

Lemma fold_zip_zeros (n : nat) (rest : list (list R)) :
  Forall (fun v => v = replicate n 0) rest ->
  fold_left (zip_with Rplus) rest (replicate n 0) = replicate n 0.
Proof.
  induction 1 as [|v rest -> _ IH]; [reflexivity|].
  cbn [fold_left]. rewrite zip_with_replicate.
  replace (0 + 0) with 0 by lra. exact IH.
Qed.

Lemma embedding_table_row (ips od : nat) (params : list linear_params) (tok : nat) :
  Forall (linear_shaped ips od) params ->
  (tok < length params * ips)%nat ->
  length (nth tok (concat (w <$> params)) []) = od.
Proof.
  intros Hshape Htok.
  assert (Hlen : length (concat (w <$> params)) = (length params * ips)%nat).
  { clear Htok. induction Hshape as [|p ps (_ & Hw & _) _ IH]; [reflexivity|].
    rewrite fmap_cons. cbn [concat length]. rewrite length_app, IH, Hw. lia. }
  assert (Hall : Forall (fun r => length r = od) (concat (w <$> params))).
  { apply Forall_concat. apply Forall_fmap. eapply Forall_impl; [exact Hshape|].
    intros p (_ & _ & Hr). exact Hr. }
  destruct (lookup_lt_is_Some_2 (concat (w <$> params)) tok ltac:(lia)) as [r Hr].
  rewrite (nth_lookup_Some _ _ _ _ Hr).
  exact (proj1 (Forall_lookup _ _) Hall tok r Hr).
Qed.

(** X20.  While every shard's bias is zero, as the linear layer creates
    it, the embedding of a token of the vocabulary is exactly its row of
    the shards' weight tables laid end to end, on every shard. *)
Theorem embedding_with_zero_biases_is_table_lookup (m : t) (params : list linear_params)
    (x : list Z) (s tok_i : nat) (tok : Z) :
  (0 < in_dim_per_shard m)%Z ->
  Forall (linear_shaped (Z.to_nat (in_dim_per_shard m)) (Z.to_nat (out_dim m))) params ->
  Forall (fun p => b p = replicate (Z.to_nat (out_dim m)) 0) params ->
  x !! tok_i = Some tok ->
  (0 <= tok < Z.of_nat (length params) * in_dim_per_shard m)%Z ->
  (s < length params)%nat ->
  __call__ m params x !! s ≫= (.!! tok_i)
  = Some (nth (Z.to_nat tok) (concat (w <$> params)) []).
Proof.
  intros Hips Hshape Hzero Hx Htok Hs.
  destruct (embedding_sum_of_partial_outputs m params x s tok_i tok Hips Hshape Hx Htok Hs)
    as (bias_sum & Hsum & Hcall).
  rewrite Hcall. f_equal.
  assert (Hb : bias_sum = replicate (Z.to_nat (out_dim m)) 0).
  { destruct Hzero as [|p0 prest Hp0 Hrest]; [discriminate Hsum|].
    rewrite fmap_cons in Hsum. cbn [Collective.total] in Hsum.
    injection Hsum as <-. rewrite Hp0.
    change (@tadd (list R) _) with (zip_with Rplus).
    apply fold_zip_zeros. apply Forall_fmap. exact Hrest. }
  rewrite Hb.
  rewrite <- (embedding_table_row (Z.to_nat (in_dim_per_shard m)) (Z.to_nat (out_dim m))
                params (Z.to_nat tok) Hshape) at 1 by nia.
  apply zip_plus_zeros.
Qed.

Lemma embedding_with_zero_biases_is_table_lookup_witness :
  __call__ small_embedding zero_bias_params [1%Z] !! 1%nat ≫= (.!! 0%nat)
  = Some (nth (Z.to_nat 1) (concat (w <$> zero_bias_params)) []).
Proof.
  apply (embedding_with_zero_biases_is_table_lookup small_embedding zero_bias_params
           [1%Z] 1 0 1%Z).
  - simpl. lia.
  - repeat constructor.
  - repeat constructor.
  - reflexivity.
  - simpl. lia.
  - simpl. lia.
Defined.

End EmbeddingAtInitialization.
